(** * mais_art_journal: image-generation client core

    A shallow embedding of the parts of the repository that carry its
    algorithmic content, followed by the properties proved about them:

    - [core/api_clients/openai_chat_client.py]: request payload, handling of
      the HTTP outcome, the five-strategy extraction pipeline;
    - [core/utils/model_utils.py]: three-tier configuration lookup and the
      two derived-config helpers;
    - [core/utils/image_send_utils.py]: base64-or-URL normalisation;
    - [core/utils/recall_utils.py]: the delete-command loop of the recall
      task.

    Python strings are lists of Unicode code points, dictionaries are finite
    maps (objects in a store where identity matters), exceptions are an
    explicit sum, and the calls made to the download function and to the
    command dispatcher are recorded in call traces.  Log output is modelled
    only for the recall loop. *)

From Stdlib Require Import NArith ZArith List Ascii String DecimalString Lia PrimFloat Bool.
From Stdlib Require Uint63.
From stdpp Require Import gmap list.

Set Warnings "-register-all".
Set Default Proof Using "Type".

(** ** Python strings *)

(** A [str] is a sequence of code points. *)
Abbreviation pystr := (list N).

(** Source literals are written as UTF-8 text and decoded to code points. *)
Fixpoint utf8_decode (bs : list N) : pystr :=
  match bs with
  | [] => []
  | b :: r =>
    if (b <? 128)%N then b :: utf8_decode r
    else if (b <? 224)%N then
      match r with
      | c1 :: r1 => ((b - 192) * 64 + (c1 - 128))%N :: utf8_decode r1
      | _ => []
      end
    else if (b <? 240)%N then
      match r with
      | c1 :: c2 :: r2 =>
        ((b - 224) * 4096 + (c1 - 128) * 64 + (c2 - 128))%N :: utf8_decode r2
      | _ => []
      end
    else
      match r with
      | c1 :: c2 :: c3 :: r3 =>
        ((b - 240) * 262144 + (c1 - 128) * 4096 + (c2 - 128) * 64 + (c3 - 128))%N
          :: utf8_decode r3
      | _ => []
      end
  end.

Definition py (s : string) : pystr :=
  utf8_decode (map N_of_ascii (list_ascii_of_string s)).
Arguments py : simpl never.

(** [s.startswith(p)] and [s.startswith((p1, ..., pn))]. *)
Fixpoint startswith (s p : pystr) {struct p} : bool :=
  match p, s with
  | [], _ => true
  | a :: p', b :: s' => (a =? b)%N && startswith s' p'
  | _ :: _, [] => false
  end.

Definition startswith_any (s : pystr) (ps : list pystr) : bool :=
  existsb (startswith s) ps.

(** Decimal rendering of an [int], as [str(n)] and [f"{n}"] give it. *)
Definition str_int (z : Z) : pystr :=
  map N_of_ascii
      (list_ascii_of_string (NilZero.string_of_int (Z.to_int z))).

(** ** Character classes of the [re] module (str patterns, Unicode mode) *)

Definition in_range (lo hi c : N) : bool := ((lo <=? c) && (c <=? hi))%N.

(** [\s]: [Py_UNICODE_ISSPACE]. *)
Definition is_space (c : N) : bool :=
  in_range 9 13 c || in_range 28 32 c || (c =? 133)%N || (c =? 160)%N
  || (c =? 5760)%N || in_range 8192 8202 c || (c =? 8232)%N || (c =? 8233)%N
  || (c =? 8239)%N || (c =? 8287)%N || (c =? 12288)%N.

(** [.] without DOTALL: anything but a line feed. *)
Definition dot (c : N) : bool := negb (c =? 10)%N.

(** [[a-zA-Z]] *)
Definition is_letter (c : N) : bool := in_range 65 90 c || in_range 97 122 c.

(** [[A-Za-z0-9+/]] *)
Definition is_b64 (c : N) : bool :=
  is_letter c || in_range 48 57 c || (c =? 43)%N || (c =? 47)%N.

(** [[A-Za-z0-9+/=]] *)
Definition is_b64_pad (c : N) : bool := is_b64 c || (c =? 61)%N.

(** [[^\s\)]] *)
Definition md_url_char (c : N) : bool := negb (is_space c || (c =? 41)%N).

(** The class excluding [\s], [<], [>] and the double and single quote
    characters (code points 34 and 39). *)
Definition url_char (c : N) : bool :=
  negb (is_space c || (c =? 60)%N || (c =? 62)%N || (c =? 34)%N || (c =? 39)%N).

(** A literal character under [re.IGNORECASE]: the engine lower-cases the
    subject character and compares it with the pattern character and its
    listed equivalents.  For an ASCII letter this admits its two cases, the
    long s (U+017F) for [s], the dotted capital and dotless small i (U+0130,
    U+0131) for [i] and the Kelvin sign (U+212A) for [k]; an uncased
    character only matches itself. *)
Definition ci (a c : N) : bool :=
  if in_range 97 122 a then
    (c =? a)%N || (c =? a - 32)%N
    || ((a =? 115) && (c =? 383))%N
    || ((a =? 105) && ((c =? 304) || (c =? 305)))%N
    || ((a =? 107) && (c =? 8490))%N
  else (c =? a)%N.

(** ** A backtracking matcher for the fragment of [re] the client uses *)

Inductive regex : Type :=
| Chars (ps : list (N -> bool))          (* a fixed run of one-character tests *)
| Rep (greedy : bool) (lo : nat) (hi : option nat) (p : N -> bool)
                                          (* p{lo,hi}, p{lo,} and the lazy forms *)
| Opt (r : regex)                         (* (?:r)? *)
| Alt (r1 r2 : regex)                     (* r1|r2 *)
| Seq (r1 r2 : regex)
| Grp (r : regex)                         (* the capturing group *)
| NotBehind (p : N -> bool)               (* (?<![...]) *)
| NotAhead (p : N -> bool).               (* (?![...]) *)

Infix "--" := Seq (at level 60, right associativity).

Definition Lit (s : string) : regex := Chars (map N.eqb (py s)).
Definition LitI (s : string) : regex := Chars (map ci (py s)).

Definition hi_open (hi : option nat) : bool :=
  match hi with Some 0 => false | _ => true end.
Definition hi_pred (hi : option nat) : option nat :=
  match hi with Some n => Some (pred n) | None => None end.

Section Matcher.
Context {R : Type}.

(** The matcher threads the character before the cursor (for the
    look-behind), the text after the cursor and the captured group. *)
Fixpoint chars (ps : list (N -> bool)) (prev : option N) (s : pystr)
  : option (option N * pystr) :=
  match ps with
  | [] => Some (prev, s)
  | p :: ps' =>
    match s with
    | c :: s' => if p c then chars ps' (Some c) s' else None
    | [] => None
    end
  end.

(** Greedy repetition: take as many as allowed, give back one at a time. *)
Fixpoint rep_greedy (p : N -> bool) (lo : nat) (hi : option nat)
    (prev : option N) (s : pystr) (k : option N -> pystr -> option R) : option R :=
  match s with
  | c :: s' =>
    if p c && hi_open hi then
      match rep_greedy p (pred lo) (hi_pred hi) (Some c) s' k with
      | Some r => Some r
      | None => match lo with 0 => k prev s | S _ => None end
      end
    else match lo with 0 => k prev s | S _ => None end
  | [] => match lo with 0 => k prev s | S _ => None end
  end.

(** Lazy repetition: try the rest of the pattern first, then take one more. *)
Fixpoint rep_lazy (p : N -> bool) (lo : nat) (hi : option nat)
    (prev : option N) (s : pystr) (k : option N -> pystr -> option R) : option R :=
  match (match lo with 0 => k prev s | S _ => None end) with
  | Some r => Some r
  | None =>
    match s with
    | c :: s' =>
      if p c && hi_open hi then rep_lazy p (pred lo) (hi_pred hi) (Some c) s' k
      else None
    | [] => None
    end
  end.

Fixpoint mt (r : regex) (prev : option N) (s : pystr) (g : option pystr)
    (k : option N -> pystr -> option pystr -> option R) : option R :=
  match r with
  | Chars ps =>
    match chars ps prev s with
    | Some (prev', s') => k prev' s' g
    | None => None
    end
  | Rep true lo hi p => rep_greedy p lo hi prev s (fun prev' s' => k prev' s' g)
  | Rep false lo hi p => rep_lazy p lo hi prev s (fun prev' s' => k prev' s' g)
  | Opt r1 =>
    match mt r1 prev s g k with
    | Some x => Some x
    | None => k prev s g
    end
  | Alt r1 r2 =>
    match mt r1 prev s g k with
    | Some x => Some x
    | None => mt r2 prev s g k
    end
  | Seq r1 r2 => mt r1 prev s g (fun prev' s' g' => mt r2 prev' s' g' k)
  | Grp r1 =>
    mt r1 prev s g
       (fun prev' s' _ => k prev' s' (Some (take (length s - length s') s)))
  | NotBehind p =>
    match prev with
    | Some c => if p c then None else k prev s g
    | None => k prev s g
    end
  | NotAhead p =>
    match s with
    | c :: _ => if p c then None else k prev s g
    | [] => k prev s g
    end
  end.
End Matcher.

(** One match attempt at the cursor: the text of group 1 and the number of
    characters the whole match consumed. *)
Definition match_at (r : regex) (prev : option N) (s : pystr) : option (pystr * nat) :=
  mt r prev s None (fun _ s' g => Some (default [] g, length s - length s')).

(** [re.findall] for a pattern with one group: scan left to right, report
    group 1 of each match, resume after the match.  [skip] counts the
    characters of the last match still to be stepped over.  (None of the
    patterns below matches the empty string.) *)
Fixpoint scan (r : regex) (skip : nat) (prev : option N) (s : pystr) : list pystr :=
  match skip with
  | S n =>
    match s with
    | c :: s' => scan r n (Some c) s'
    | [] => []
    end
  | 0 =>
    match match_at r prev s with
    | Some (g, len) =>
      g :: match s with
           | c :: s' => scan r (pred len) (Some c) s'
           | [] => []
           end
    | None =>
      match s with
      | c :: s' => scan r 0 (Some c) s'
      | [] => []
      end
    end
  end.

Definition findall (r : regex) (s : pystr) : list pystr := scan r 0 None s.

(** ** The five patterns of [_extract_image_from_response] *)

(** [!\[.*?\]\((https?://[^\s\)]+)\)] *)
Definition md_pattern : regex :=
  Lit "![" -- Rep false 0 None dot -- Lit "](" --
  Grp (Lit "http" -- Rep true 0 (Some 1) (N.eqb 115) -- Lit "://" --
       Rep true 1 None md_url_char) --
  Lit ")".

(** [data:image/[a-zA-Z]+;base64,([A-Za-z0-9+/=]+)] *)
Definition data_uri_pattern : regex :=
  Lit "data:image/" -- Rep true 1 None is_letter -- Lit ";base64," --
  Grp (Rep true 1 None is_b64_pad).

(** [(?<![A-Za-z0-9+/])([A-Za-z0-9+/]{200,}={0,2})(?![A-Za-z0-9+/])] *)
Definition b64_pattern : regex :=
  NotBehind is_b64 --
  Grp (Rep true 200 None is_b64 -- Rep true 0 (Some 2) (N.eqb 61)) --
  NotAhead is_b64.

(** [(https?://U+\.(?:png|jpg|jpeg|gif|webp|bmp)(?:\?U{0,})?)] compiled with
    [re.IGNORECASE], where [U] is the class [url_char]. *)
Definition url_pattern : regex :=
  Grp (LitI "http" -- Rep true 0 (Some 1) (ci 115) -- Lit "://" --
       Rep true 1 None url_char -- Lit "." --
       Alt (LitI "png") (Alt (LitI "jpg") (Alt (LitI "jpeg")
         (Alt (LitI "gif") (Alt (LitI "webp") (LitI "bmp"))))) --
       Opt (Lit "?" -- Rep true 0 None url_char)).

(** [(https?://U+)], with [U] the class [url_char]. *)
Definition any_url_pattern : regex :=
  Grp (Lit "http" -- Rep true 0 (Some 1) (N.eqb 115) -- Lit "://" --
       Rep true 1 None url_char).

(** [max(matches, key=len)] started at [x]: the first element of greatest
    length. *)
Fixpoint max_by_len (x : pystr) (l : list pystr) : pystr :=
  match l with
  | [] => x
  | y :: l' => max_by_len (if length x <? length y then y else x) l'
  end.

(** Format signature prefixes tested by strategy 3. *)
Definition b64_signatures : list pystr :=
  [py "/9j/"; py "iVBORw"; py "UklGR"; py "R0lGOD"].

Definition msg_no_image : pystr := py "无法从 Chat API 响应中提取图片数据".
Definition msg_no_content : pystr := py "Chat API响应中无内容".

(** The strategy cascade on a non-empty reply text (source lines 203-248). *)
Definition extract_from_content (content : pystr) : bool * pystr :=
  let md_matches := findall md_pattern content in
  match md_matches with
  | image_url :: _ => (true, image_url)
  | [] =>
    let data_uri_matches := findall data_uri_pattern content in
    match data_uri_matches with
    | b64_data :: _ => (true, b64_data)
    | [] =>
      let b64_matches := findall b64_pattern content in
      let accepted :=
        match b64_matches with
        | m :: ms =>
          let longest := max_by_len m ms in
          if startswith_any longest b64_signatures || (1000 <? length longest)
          then Some longest else None
        | [] => None
        end in
      match accepted with
      | Some longest => (true, longest)
      | None =>
        let url_matches := findall url_pattern content in
        match url_matches with
        | image_url :: _ => (true, image_url)
        | [] =>
          let any_url_matches := findall any_url_pattern content in
          match any_url_matches with
          | image_url :: _ => (true, image_url)
          | [] => (false, msg_no_image)
          end
        end
      end
    end
  end.

(** ** Python values *)

(** Configuration values, JSON documents and command results: the part of
    Python's object universe these modules handle. *)
Inductive value : Type :=
| VNone
| VBool (b : bool)
| VInt (z : Z)
| VFloat (f : float)
| VStr (s : pystr)
| VList (l : list value)
| VDict (d : gmap pystr value).

Abbreviation dict := (gmap pystr value).

(** [bool(v)] *)
Definition truthy (v : value) : bool :=
  match v with
  | VNone => false
  | VBool b => b
  | VInt z => negb (z =? 0)%Z
  | VFloat f => negb (PrimFloat.eqb f 0%float)
  | VStr s => match s with [] => false | _ => true end
  | VList l => match l with [] => false | _ => true end
  | VDict d => bool_decide (d ≠ ∅)
  end.

(** [d.get(k, dflt)] *)
Definition get (d : dict) (k : string) (dflt : value) : value :=
  default dflt (d !! py k).

(** [v is None] *)
Definition is_None (v : value) : bool :=
  match v with VNone => true | _ => false end.

(** [a == b] on strings *)
Definition str_eqb (a b : pystr) : bool := bool_decide (a = b).

(** [v == s] for a string literal [s]: only a string can be equal to one. *)
Definition eq_str (v : value) (s : string) : bool :=
  match v with VStr t => str_eqb t (py s) | _ => false end.

(** [v == n] for one of the integer literals [0] and [-1] the source
    compares with: numeric comparison across [int], [bool] and [float]. *)
Definition eq_int (v : value) (n : Z) : bool :=
  match v with
  | VInt z => (z =? n)%Z
  | VBool b => ((if b then 1 else 0) =? n)%Z
  | VFloat f =>
    PrimFloat.eqb f (if (n <? 0)%Z then PrimFloat.opp (PrimFloat.of_uint63 (Uint63.of_Z (- n)))
                     else PrimFloat.of_uint63 (Uint63.of_Z n))
  | _ => false
  end.

(** Exceptions: instances of [Exception], by class and [str(e)]. *)
Inductive exn_class : Type :=
| IndexError | KeyError | TypeError | AttributeError | ValueError | OtherException.

Record exn : Type := Exn { exn_cls : exn_class; exn_str : pystr }.

Inductive result (A : Type) : Type :=
| Ok (a : A)
| Raise (e : exn).
Arguments Ok {A} a.
Arguments Raise {A} e.

Definition bind {A B : Type} (m : result A) (f : A -> result B) : result B :=
  match m with
  | Ok a => f a
  | Raise e => Raise e
  end.

Notation "'let?' x := m 'in' k" := (bind m (fun x => k))
  (at level 10, x pattern, m at level 100, k at level 200).

(** Behaviour of the interpreter and of modules outside [src/] that the
    modelled code calls and no statement below depends on. *)
Class Builtins : Type := {
  (** [str(v)], which is also what an f-string field renders *)
  py_str : value -> pystr;
  (** [s.lower()] *)
  py_lower : pystr -> pystr;
  (** the message of the built-in exception of a class raised on an operand *)
  exn_text : exn_class -> value -> pystr;
  (** [json.loads] *)
  json_loads : pystr -> result value;
  (** [BaseApiClient._prepare_image_data_uri], defined in [base_client.py] *)
  prepare_image_data_uri : pystr -> pystr
}.

(** An f-string field: a string renders as itself. *)
Definition fmt `{Builtins} (v : value) : pystr :=
  match v with VStr s => s | _ => py_str v end.

(** ** [model_utils.py] *)

Definition config_fields : list string :=
  ["name"; "base_url"; "api_key"; "format"; "model";
   "fixed_size_enabled"; "default_size"; "seed";
   "guidance_scale"; "num_inference_steps"; "watermark";
   "custom_prompt_add"; "negative_prompt_add"; "artist";
   "support_img2img"; "auto_recall_delay";
   "cfg"; "sampler"; "nocache"; "noise_schedule";
   "img2img_model_index"; "image_upload_url";
   "default_width"; "default_height";
   "safety_settings"]%string.

(** [isinstance(v, dict) and v.get("base_url")] *)
Definition usable (v : value) : bool :=
  match v with
  | VDict d => truthy (get d "base_url" VNone)
  | _ => false
  end.

(** The field-by-field loop: [assembled[field] = val] for every field whose
    value is not [None]. *)
Definition assemble_step (config_getter : pystr -> value -> value) (model_id : pystr)
    (assembled : dict) (field : string) : dict :=
  let val := config_getter (py "models." ++ model_id ++ py "." ++ py field) VNone in
  if is_None val then assembled else <[py field := val]> assembled.

Definition assemble (config_getter : pystr -> value -> value) (model_id : pystr) : dict :=
  fold_left (assemble_step config_getter model_id) config_fields ∅.

(** [get_model_config(config_getter, model_id, default_model_id)]; the result
    is the returned object, [VNone] for [None]. *)
Definition get_model_config (config_getter : pystr -> value -> value)
    (model_id default_model_id : pystr) : value :=
  let model_config := config_getter (py "models." ++ model_id) VNone in
  if usable model_config then model_config
  else
    let assembled := assemble config_getter model_id in
    if truthy (get assembled "base_url" VNone) then VDict assembled
    else if negb (str_eqb model_id default_model_id) then
      let fallback := config_getter (py "models." ++ default_model_id) VNone in
      if usable fallback then fallback else VNone
    else VNone.

(** *** Dictionaries as objects

    [merge_negative_prompt] and [inject_llm_original_size] either hand back
    the dictionary they were given or build a new one, so dictionaries are
    objects in a store, named by their address. *)
Abbreviation loc := positive.
Abbreviation store := (gmap loc dict).

(** The dictionary an address names. *)
Definition deref (σ : store) (l : loc) : dict := default ∅ (σ !! l).

(** [dict(d)]: a new object with the entries of [d]. *)
Definition dict_copy (σ : store) (l : loc) : loc * store :=
  let l' := fresh (dom σ) in (l', <[l' := deref σ l]> σ).

(** [d[k] = v]: the object at [l] is updated in place. *)
Definition setitem (σ : store) (l : loc) (k : string) (v : value) : store :=
  <[l := <[py k := v]> (deref σ l)]> σ.

Definition merge_negative_prompt `{Builtins} (σ : store) (model_config : loc)
    (extra_negative : pystr) : loc * store :=
  match extra_negative with
  | [] => (model_config, σ)
  | _ =>
    let '(config, σ) := dict_copy σ model_config in
    let existing := get (deref σ config) "negative_prompt_add" (VStr []) in
    if truthy existing then
      (config, setitem σ config "negative_prompt_add"
                       (VStr (fmt existing ++ py ", " ++ extra_negative)))
    else
      (config, setitem σ config "negative_prompt_add" (VStr extra_negative))
  end.

Definition inject_llm_original_size (σ : store) (model_config : loc)
    (llm_original_size : pystr) : loc * store :=
  let api_format := get (deref σ model_config) "format" (VStr (py "openai")) in
  if (eq_str api_format "gemini" || eq_str api_format "zai")
     && match llm_original_size with [] => false | _ => true end
  then
    let '(config, σ) := dict_copy σ model_config in
    (config, setitem σ config "_llm_original_size" (VStr llm_original_size))
  else (model_config, σ).

(** ** [image_send_utils.py] *)

(** [shared_constants.BASE64_IMAGE_PREFIXES] *)
Definition BASE64_IMAGE_PREFIXES : list pystr :=
  [py "iVBORw"; py "/9j/"; py "UklGR"; py "R0lGOD"].

(** [resolve_image_data(image_data, download_fn)].  [download_fn] either
    returns its pair or raises; the second component of the result lists the
    arguments [download_fn] was called with, in order. *)
Definition resolve_image_data (image_data : pystr)
    (download_fn : pystr -> result (bool * pystr))
  : result (bool * pystr) * list pystr :=
  if startswith_any image_data BASE64_IMAGE_PREFIXES then
    (Ok (true, image_data), [])
  else
    (match download_fn image_data with
     | Ok (encode_success, encode_result) =>
       if encode_success then Ok (true, encode_result)
       else Ok (false, py "图片下载失败: " ++ encode_result)
     | Raise e => Ok (false, py "图片下载失败")
     end,
     [image_data]).

(** ** [recall_utils.py]: the delete-command loop of [_recall_task] *)

Definition DELETE_COMMAND_CANDIDATES : list pystr :=
  [py "DELETE_MSG"; py "delete_msg"; py "RECALL_MSG"; py "recall_msg"].

(** What awaiting [send_command_fn] can do: return a value, raise an
    [Exception], or be interrupted by the cancellation of the task
    ([asyncio.CancelledError], which [except Exception] does not catch). *)
Inductive send_outcome : Type :=
| SendReturns (v : value)
| SendRaises (e : exn)
| SendCancelled.

(** The test applied to the value a command returned (the [if]/[elif] of
    the loop body). *)
Definition indicates_success `{Builtins} (result : value) : bool :=
  match result with
  | VBool b => b
  | VDict d =>
    let status := py_lower (py_str (get d "status" (VStr []))) in
    (str_eqb status (py "ok") || str_eqb status (py "success"))
    || eq_int (get d "retcode" VNone) 0
    || eq_int (get d "code" VNone) 0
  | _ => false
  end.

Inductive log_entry : Type :=
| LogRecalled (cmd : pystr)       (* info: recall succeeded with this command *)
| LogCommandFailed (cmd : pystr)  (* debug: the command raised *)
| LogExhausted                    (* warning: every command was tried *)
| LogCancelled.                   (* debug: the task was cancelled *)

Section RecallLoop.
Context `{Builtins}.
(** The state of the platform behind the command dispatcher. *)
Context {W : Type}.
(** [send_command_fn(command_name=cmd, args={"message_id": id},
    storage_message=False)] run in a platform state. *)
Variable send_command_fn : W -> pystr -> pystr -> send_outcome * W.

(** The run of a loop: the commands sent, in order, each with what came
    back, the log written, and how the loop was left. *)
Inductive loop_exit : Type :=
| ExitBreak        (* [break] with [recall_success = True] *)
| ExitExhausted    (* the candidates ran out *)
| ExitCancelled.   (* [CancelledError] left the loop *)

Record loop_run : Type := LoopRun {
  run_world : W;
  run_sent : list (pystr * send_outcome);
  run_log : list log_entry;
  run_exit : loop_exit
}.

Definition cons_sent (cmd : pystr) (o : send_outcome) (logs : list log_entry)
    (r : loop_run) : loop_run :=
  LoopRun (run_world r) ((cmd, o) :: run_sent r) (logs ++ run_log r) (run_exit r).

Fixpoint recall_loop (target_message_id : pystr) (cmds : list pystr) (w : W) : loop_run :=
  match cmds with
  | [] => LoopRun w [] [] ExitExhausted
  | cmd :: cmds' =>
    match send_command_fn w cmd target_message_id with
    | (SendReturns result, w') =>
      if indicates_success result
      then LoopRun w' [(cmd, SendReturns result)] [LogRecalled cmd] ExitBreak
      else cons_sent cmd (SendReturns result) []
                     (recall_loop target_message_id cmds' w')
    | (SendRaises e, w') =>
      cons_sent cmd (SendRaises e) [LogCommandFailed cmd]
                (recall_loop target_message_id cmds' w')
    | (SendCancelled, w') => LoopRun w' [(cmd, SendCancelled)] [] ExitCancelled
    end
  end.

(** From the end of the delay to the end of the task: the loop, the
    warning after it, and the handlers of the enclosing [try].  The task
    returns [None] on every path. *)
Definition recall_attempts (target_message_id : pystr) (w : W) : result unit * loop_run :=
  let r := recall_loop target_message_id DELETE_COMMAND_CANDIDATES w in
  match run_exit r with
  | ExitBreak => (Ok (), r)
  | ExitExhausted =>
    (Ok (), LoopRun (run_world r) (run_sent r) (run_log r ++ [LogExhausted]) ExitExhausted)
  | ExitCancelled =>
    (Ok (), LoopRun (run_world r) (run_sent r) (run_log r ++ [LogCancelled]) ExitCancelled)
  end.

(** A command that did not end the loop: it returned a value that does
    not indicate success, or it raised. *)
Definition failed (o : send_outcome) : Prop :=
  match o with
  | SendReturns v => indicates_success v = false
  | SendRaises _ => True
  | SendCancelled => False
  end.
End RecallLoop.
Arguments loop_run W : clear implicits.

(** ** [openai_chat_client.py] *)

Section ChatClient.
Context `{Builtins}.

Definition raise {A : Type} (c : exn_class) (operand : value) : result A :=
  Raise (Exn c (exn_text c operand)).

(** [v.get(k, dflt)]: only a dict has the method. *)
Definition py_get (v : value) (k : string) (dflt : value) : result value :=
  match v with
  | VDict d => Ok (get d k dflt)
  | _ => raise AttributeError v
  end.

(** [v[0]] *)
Definition index0 (v : value) : result value :=
  match v with
  | VList (x :: _) => Ok x
  | VList [] => raise IndexError v
  | VStr (c :: _) => Ok (VStr [c])
  | VStr [] => raise IndexError v
  | VDict _ => raise KeyError v
  | _ => raise TypeError v
  end.

(** [try: body; except (IndexError, KeyError, TypeError): pass], the
    variable assigned in the body keeping [dflt] when the handler runs. *)
Definition try_lookup {A : Type} (body : result A) (dflt : A) : result A :=
  match body with
  | Ok a => Ok a
  | Raise e =>
    match exn_cls e with
    | IndexError | KeyError | TypeError => Ok dflt
    | _ => Raise e
    end
  end.

(** Lines 188-195: the reply text, [""] to start with. *)
Definition response_content (response_data : value) : result value :=
  try_lookup
    (let? choices := py_get response_data "choices" (VList []) in
     if truthy choices then
       let? first := index0 choices in
       let? message := py_get first "message" (VDict ∅) in
       py_get message "content" (VStr [])
     else Ok (VStr []))
    (VStr []).

(** [_extract_image_from_response(response_data)].  After the emptiness
    test the text is measured with [len] and searched with [re.findall],
    which raise [TypeError] on a value that is not a string. *)
Definition _extract_image_from_response (response_data : value)
  : result (bool * pystr) :=
  let? content := response_content response_data in
  if negb (truthy content) then Ok (false, msg_no_content)
  else
    match content with
    | VStr s => Ok (extract_from_content s)
    | _ => raise TypeError content
    end.

(** [s.rstrip('/')] *)
Fixpoint lstrip_slash (s : pystr) : pystr :=
  match s with
  | c :: s' => if (c =? 47)%N then lstrip_slash s' else s
  | [] => []
  end.

Definition rstrip_slash (s : pystr) : pystr := rev (lstrip_slash (rev s)).

(** [payload_dict] as lines 33-90 build it, with the endpoint computed on
    the way.  [base_url.rstrip] needs a string, as does the right operand
    of [prompt + custom_prompt_add]. *)
Definition message (role : string) (content : value) : value :=
  VDict (<[py "role" := VStr (py role)]> (<[py "content" := content]> ∅)).

Definition request_payload (prompt : pystr) (model_config : dict) (size : pystr)
    (strength : option float) (input_image_base64 : option pystr)
  : result (pystr * dict) :=
  let base_url := get model_config "base_url" (VStr []) in
  let model := get model_config "model" (VStr []) in
  let? endpoint :=
    match base_url with
    | VStr u => Ok (rstrip_slash u ++ py "/chat/completions")
    | _ => raise AttributeError base_url
    end in
  let custom_prompt_add := get model_config "custom_prompt_add" (VStr []) in
  let negative_prompt_add := get model_config "negative_prompt_add" (VStr []) in
  let? full_prompt :=
    match custom_prompt_add with
    | VStr a => Ok (prompt ++ a)
    | _ => raise TypeError custom_prompt_add
    end in
  let full_prompt :=
    if truthy negative_prompt_add
    then full_prompt ++ [10%N; 10%N] ++ py "Negative prompt (avoid these): "
                     ++ fmt negative_prompt_add
    else full_prompt in
  let system_content :=
    py "You are an image generation assistant. Generate an image based on the user's description. "
    ++ py "Target image size: " ++ size ++ py "." in
  let user_message :=
    match input_image_base64 with
    | Some (c :: img) =>
      let image_data_uri := prepare_image_data_uri (c :: img) in
      let strength_text :=
        match strength with
        | Some f =>
          if truthy (VFloat f)
          then py " (modification strength: " ++ py_str (VFloat f) ++ py ")"
          else []
        | None => []
        end in
      message "user"
        (VList [VDict (<[py "type" := VStr (py "image_url")]>
                       (<[py "image_url" :=
                            VDict (<[py "url" := VStr image_data_uri]> ∅)]> ∅));
                VDict (<[py "type" := VStr (py "text")]>
                       (<[py "text" :=
                            VStr (py "Please modify this image based on the following description"
                                  ++ strength_text ++ py ": " ++ full_prompt)]> ∅))])
    | _ => message "user" (VStr (py "Please generate an image: " ++ full_prompt))
    end in
  let messages := [message "system" (VStr system_content); user_message] in
  let payload_dict : dict :=
    <[py "messages" := VList messages]> (<[py "model" := model]> ∅) in
  let seed := get model_config "seed" (VInt (-1)) in
  let payload_dict :=
    if truthy seed && negb (eq_int seed (-1))
    then <[py "seed" := seed]> payload_dict else payload_dict in
  let payload_dict :=
    match size with
    | [] => payload_dict
    | _ => <[py "size" := VStr size]> payload_dict
    end in
  Ok (endpoint, payload_dict).

(** What the opener, [response.read] and [decode] deliver inside the [try]
    of lines 141-176: a status with the decoded body, or an exception (of
    the proxy lookup, the connection, the read or the decoding). *)
Inductive http_outcome : Type :=
| HttpResponse (status : Z) (body : pystr)
| HttpRaises (e : exn).

(** The [try] of lines 141-176 with its [except Exception] handler. *)
Definition _make_request_try (o : http_outcome) : result (bool * pystr) :=
  let body : result (bool * pystr) :=
    match o with
    | HttpRaises e => Raise e
    | HttpResponse response_status response_body_str =>
      if ((200 <=? response_status) && (response_status <? 300))%Z then
        let? response_data := json_loads response_body_str in
        _extract_image_from_response response_data
      else
        Ok (false, py "Chat API请求失败(状态码 " ++ str_int response_status ++ py ")")
    end in
  match body with
  | Ok r => Ok r
  | Raise e => Ok (false, py "Chat API请求异常: " ++ take 100 (exn_str e))
  end.
End ChatClient.

(** ** [openai_chat_client.py]: what the client logs *)

Section ChatClientLog.
Context `{Builtins}.

(** [for x in xs: ys.append(f(x))] with a body that may raise. *)
Fixpoint map_result {A B : Type} (f : A -> result B) (l : list A) : result (list B) :=
  match l with
  | [] => Ok []
  | x :: l' =>
    let? y := f x in
    let? ys := map_result f l' in
    Ok (y :: ys)
  end.

(** [v[k]] on a dict. *)
Definition getitem (v : value) (k : string) : result value :=
  match v with
  | VDict d =>
    match d !! py k with
    | Some x => Ok x
    | None => raise KeyError (VStr (py k))
    end
  | _ => raise TypeError v
  end.

(** The values a [for] loop draws from [v].  A dict yields its keys, which
    are strings; the loop body below fails on the first of them, so their
    order does not matter. *)
Definition py_iter (v : value) : result (list value) :=
  match v with
  | VList l => Ok l
  | VStr s => Ok (map (fun c => VStr [c]) s)
  | VDict d => Ok (map (fun kv => VStr kv.1) (map_to_list d))
  | _ => raise TypeError v
  end.

Definition redacted_image_part : value :=
  VDict (<[py "type" := VStr (py "image_url")]>
         (<[py "image_url" := VDict (<[py "url" := VStr (py "[BASE64_DATA...]")]> ∅)]> ∅)).

(** Lines 115-118: one content part. *)
Definition safe_part (part : value) : result value :=
  let? ty := py_get part "type" VNone in
  if eq_str ty "image_url" then Ok redacted_image_part else Ok part.

(** Lines 112-121: one message. *)
Definition safe_message (msg : value) : result value :=
  let? content := py_get msg "content" VNone in
  match content with
  | VList parts =>
    let? safe_parts := map_result safe_part parts in
    let? role := getitem msg "role" in
    Ok (VDict (<[py "role" := role]> (<[py "content" := VList safe_parts]> ∅)))
  | _ => Ok msg
  end.

(** Lines 107-122: the payload as the verbose log prints it. *)
Definition safe_payload (payload_dict : dict) : result dict :=
  match payload_dict !! py "messages" with
  | Some messages =>
    let? msgs := py_iter messages in
    let? safe_msgs := map_result safe_message msgs in
    Ok (<[py "messages" := VList safe_msgs]> payload_dict)
  | None => Ok payload_dict
  end.

(** Lines 93-97: the request headers. *)
Definition request_headers (model_config : dict) : dict :=
  <[py "Authorization" := VStr (fmt (get model_config "api_key" (VStr [])))]>
    (<[py "Accept" := VStr (py "application/json")]>
       (<[py "Content-Type" := VStr (py "application/json")]> ∅)).

(** Lines 123-129: the headers as the verbose log prints them. *)
Definition safe_headers (headers : dict) : result dict :=
  match headers !! py "Authorization" with
  | Some (VStr auth_value) =>
    if startswith auth_value (py "Bearer ")
    then Ok (<[py "Authorization" := VStr (py "Bearer ***")]> headers)
    else Ok (<[py "Authorization" := VStr (py "***")]> headers)
  | Some v => raise AttributeError v
  | None => Ok headers
  end.
End ChatClientLog.

(** [re.sub(pattern, repl, s)] for a replacement without group references:
    scan left to right, write [repl] for each match and copy the rest.
    [skip] counts the characters of the last match still to be dropped. *)
Fixpoint sub_scan (r : regex) (repl : pystr) (skip : nat) (prev : option N) (s : pystr)
  : pystr :=
  match skip with
  | S n =>
    match s with
    | c :: s' => sub_scan r repl n (Some c) s'
    | [] => []
    end
  | 0 =>
    match match_at r prev s with
    | Some (_, S len) =>
      repl ++ match s with
              | c :: s' => sub_scan r repl len (Some c) s'
              | [] => []
              end
    | Some (_, 0) =>
      repl ++ match s with
              | c :: s' => c :: sub_scan r repl 0 (Some c) s'
              | [] => []
              end
    | None =>
      match s with
      | c :: s' => c :: sub_scan r repl 0 (Some c) s'
      | [] => []
      end
    end
  end.

Definition re_sub (r : regex) (repl s : pystr) : pystr := sub_scan r repl 0 None s.

(** [[A-Za-z0-9+/]{200,}={0,2}] *)
Definition clean_pattern : regex :=
  Rep true 200 None is_b64 -- Rep true 0 (Some 2) (N.eqb 61).

Definition BASE64_PLACEHOLDER : pystr := py "[BASE64_DATA...]".

(** [OpenAIChatClient._clean_log_content(content)] *)
Definition _clean_log_content (content : pystr) : pystr :=
  re_sub clean_pattern BASE64_PLACEHOLDER content.

(** ** [recall_utils.py]: the task around the loop *)

(** A stored message as the task reads it: [msg.user_info.user_id] and
    [msg.message_id]. *)
Record stored_message : Type := StoredMessage {
  msg_user_id : value;
  msg_message_id : value
}.

(** How an [await asyncio.sleep(...)] ends. *)
Inductive wait_outcome : Type := WaitDone | WaitCancelled.

Inductive task_log : Type :=
| TaskNoTarget                      (* warning: no platform message id found *)
| TaskScheduled (mid : pystr)       (* info: recall scheduled for this id *)
| TaskLoop (e : log_entry)          (* what the delete loop logged *)
| TaskCancelled                     (* debug: the task was cancelled *)
| TaskError (e : exn).              (* error: the lookup raised *)

Section RecallTask.
Context `{Builtins}.
(** [Py_UNICODE_ISDIGIT] *)
Variable unicode_isdigit : N -> bool.

(** [s.isdigit()] *)
Definition str_isdigit (s : pystr) : bool :=
  match s with
  | [] => false
  | _ => forallb unicode_isdigit s
  end.

(** Lines 52-59: the first message of the bot whose id is all digits.  The
    debug line for a skipped id is not modelled. *)
Fixpoint find_target_message_id (bot_id : pystr) (messages : list stored_message)
  : option pystr :=
  match messages with
  | [] => None
  | msg :: rest =>
    if str_eqb (fmt (msg_user_id msg)) bot_id then
      let mid := fmt (msg_message_id msg) in
      if str_isdigit mid then Some mid
      else find_target_message_id bot_id rest
    else find_target_message_id bot_id rest
  end.

Context {W : Type}.
Variable send_command_fn : W -> pystr -> pystr -> send_outcome * W.

(** What a run of the task did: the commands sent with their outcomes, the
    log, and the platform state it left. *)
Record task_run : Type := TaskRun {
  task_sent : list (pystr * send_outcome);
  task_log_entries : list task_log;
  task_world : W
}.

(** [_recall_task]: the grace wait, the message query (which may raise),
    the lookup, the delay and the delete loop, inside the handlers for
    [CancelledError] and [Exception]. *)
Definition _recall_task (grace : wait_outcome) (query : result (list stored_message))
    (qq_account : value) (delay : wait_outcome) (w : W) : result unit * task_run :=
  match grace with
  | WaitCancelled => (Ok (), TaskRun [] [TaskCancelled] w)
  | WaitDone =>
    match query with
    | Raise e => (Ok (), TaskRun [] [TaskError e] w)
    | Ok messages =>
      let bot_id := fmt qq_account in
      match find_target_message_id bot_id messages with
      | None => (Ok (), TaskRun [] [TaskNoTarget] w)
      | Some [] => (Ok (), TaskRun [] [TaskNoTarget] w)
      | Some target_message_id =>
        match delay with
        | WaitCancelled =>
          (Ok (), TaskRun [] [TaskScheduled target_message_id; TaskCancelled] w)
        | WaitDone =>
          let '(res, r) := recall_attempts send_command_fn target_message_id w in
          (res, TaskRun (run_sent r)
                        (TaskScheduled target_message_id :: map TaskLoop (run_log r))
                        (run_world r))
        end
      end
    end
  end.
End RecallTask.
Arguments task_run W : clear implicits.

(** ** More of [str] *)

(** [s.lstrip()] and [s.strip()]: white space is what [str.isspace] accepts. *)
Fixpoint py_lstrip (s : pystr) : pystr :=
  match s with
  | c :: s' => if is_space c then py_lstrip s' else s
  | [] => []
  end.

Definition py_strip (s : pystr) : pystr := rev (py_lstrip (rev (py_lstrip s))).

(** [s.split(sep)] for a one-character separator. *)
Fixpoint py_split (sep : N) (s : pystr) : list pystr :=
  match s with
  | [] => [[]]
  | c :: s' =>
    if (c =? sep)%N then [] :: py_split sep s'
    else match py_split sep s' with
         | h :: t => (c :: h) :: t
         | [] => [[c]]
         end
  end.

(** [sep.join(l)] *)
Fixpoint py_join (sep : pystr) (l : list pystr) : pystr :=
  match l with
  | [] => []
  | x :: l' =>
    match l' with
    | [] => x
    | _ => x ++ sep ++ py_join sep l'
    end
  end.

(** ** [time_utils.py] *)

(** [datetime.datetime], as far as the module reads it. *)
Record datetime : Type := Datetime { dt_hour : Z; dt_minute : Z }.

Section TimeUtils.
(** [int(s)] on a string: the number, or nothing for [ValueError]. *)
Variable py_int : pystr -> option Z.

(** [to_minutes(time_str)]: [int(parts[0])] is evaluated first, then
    [parts[1]] is fetched, then converted; [ValueError] and [IndexError]
    both give 0. *)
Definition to_minutes (time_str : pystr) : Z :=
  match py_split 58 (py_strip time_str) with
  | p0 :: rest =>
    match py_int p0 with
    | Some h =>
      match rest with
      | p1 :: _ =>
        match py_int p1 with
        | Some m => h * 60 + m
        | None => 0
        end
      | [] => 0
      end
    | None => 0
    end
  | [] => 0
  end%Z.

(** [is_in_time_range(start_str, end_str, now)]; [clock] is what
    [datetime.datetime.now()] returns when [now] is [None]. *)
Definition is_in_time_range (start_str end_str : pystr) (now : option datetime)
    (clock : datetime) : bool :=
  let now := default clock now in
  let current_min := (dt_hour now * 60 + dt_minute now)%Z in
  let start_min := to_minutes start_str in
  let end_min := to_minutes end_str in
  if (end_min <? start_min)%Z
  then (start_min <=? current_min)%Z || (current_min <=? end_min)%Z
  else (start_min <=? current_min)%Z && (current_min <=? end_min)%Z.
End TimeUtils.

(** ** [scene_action_generator.py]: the last stage of
    [convert_to_selfie_prompt] (lines 264-276) *)

(** The part appended first (line 210). *)
Definition SUBJECT_PART : pystr := py "(1girl:1.4), (solo:1.3)".

Section Keywords.
Context `{Builtins}.

(** The loop over [keywords]: [seen] holds the lower-cased keywords kept so
    far, [unique] the kept keywords in order. *)
Fixpoint unique_keywords (keywords : list pystr) (seen : gset pystr) (unique : list pystr)
  : list pystr :=
  match keywords with
  | [] => unique
  | kw :: keywords' =>
    let kw_lower := py_lower (py_strip kw) in
    if truthy (VStr kw_lower) && negb (bool_decide (kw_lower ∈ seen))
    then unique_keywords keywords' ({[kw_lower]} ∪ seen) (unique ++ [py_strip kw])
    else unique_keywords keywords' seen unique
  end.

(** The keywords kept from [prompt_parts]. *)
Definition selfie_keywords (prompt_parts : list pystr) : list pystr :=
  let prompt_parts :=
    List.filter (fun p => truthy (VStr p) && truthy (VStr (py_strip p))) prompt_parts in
  let keywords := map py_strip (py_split 44 (py_join (py ", ") prompt_parts)) in
  unique_keywords keywords ∅ [].

(** [final_prompt], the value [convert_to_selfie_prompt] returns, from the
    parts it has collected. *)
Definition final_prompt (prompt_parts : list pystr) : pystr :=
  py_join (py ", ") (selfie_keywords prompt_parts).
End Keywords.

(** * Vocabulary of the statements *)

(** ** Texts and runs *)

(** The character before the cursor once [x] has been read. *)
Definition prev_after (prev : option N) (x : pystr) : option N :=
  match last x with Some c => Some c | None => prev end.

(** A class fails at the head of [s], or [s] is empty. *)
Definition stops (p : N -> bool) (s : pystr) : Prop :=
  match s with [] => True | c :: _ => p c = false end.

(** The text does not end with a character of the class. *)
Definition ends_ok (p : N -> bool) (s : pystr) : Prop :=
  match last s with Some c => p c = false | None => True end.

(** The look-behind of the base64 pattern is satisfied. *)
Definition behind_ok (prev : option N) : Prop :=
  match prev with Some c => is_b64 c = false | None => True end.

(** Length of the run of the class at the head of a text. *)
Fixpoint run_len (p : N -> bool) (s : pystr) : nat :=
  match s with
  | c :: s' => if p c then S (run_len p s') else 0
  | [] => 0
  end.

(** Length of the longest run of the class anywhere in a text. *)
Fixpoint longest_run (p : N -> bool) (s : pystr) : nat :=
  match s with
  | [] => 0
  | _ :: s' => Nat.max (run_len p s) (longest_run p s')
  end.

(** The text contains the two characters that open a markdown image. *)
Fixpoint has_md_open (s : pystr) : bool :=
  match s with
  | c :: s' =>
    ((c =? 33)%N && match s' with d :: _ => (d =? 91)%N | [] => false end)
    || has_md_open s'
  | [] => false
  end.

(** ** The pipeline as the specification words it

    Five matchers in the order of the source, each giving a payload or
    nothing, and the rule that the first hit is the answer. *)
Definition strategy_md (content : pystr) : option pystr :=
  head (findall md_pattern content).
Definition strategy_data_uri (content : pystr) : option pystr :=
  head (findall data_uri_pattern content).
Definition strategy_b64 (content : pystr) : option pystr :=
  match findall b64_pattern content with
  | m :: ms =>
    let longest := max_by_len m ms in
    if startswith_any longest b64_signatures || (1000 <? length longest)
    then Some longest else None
  | [] => None
  end.
Definition strategy_url (content : pystr) : option pystr :=
  head (findall url_pattern content).
Definition strategy_any_url (content : pystr) : option pystr :=
  head (findall any_url_pattern content).

Definition strategies : list (pystr -> option pystr) :=
  [strategy_md; strategy_data_uri; strategy_b64; strategy_url; strategy_any_url].

Fixpoint first_match (ss : list (pystr -> option pystr)) (content : pystr)
  : option pystr :=
  match ss with
  | [] => None
  | f :: ss' =>
    match f content with
    | Some payload => Some payload
    | None => first_match ss' content
    end
  end.

(** A reply of the standard chat-completion shape carrying [content]. *)
Definition chat_response (content : pystr) : value :=
  VDict {[ py "choices" :=
    VList [VDict {[ py "message" := VDict {[ py "content" := VStr content ]} ]}] ]}.

(** ** The assembled configuration, entry by entry

    A key is present exactly when it is one of the listed fields and the
    getter's value for it is not [None], and it then holds that value. *)
Definition assembled_entry (config_getter : pystr -> value -> value) (model_id k : pystr)
  : option value :=
  if bool_decide (k ∈ map py config_fields) then
    let val := config_getter (py "models." ++ model_id ++ py "." ++ k) VNone in
    if is_None val then None else Some val
  else None.

(** ** Concrete data for the worked instances *)

(** Stand-ins for the interpreter's functions: enough for ASCII data. *)
Definition plain_builtins : Builtins :=
  {| py_str := fun v => match v with VStr s => s | _ => [] end;
     py_lower := fun s => s;
     exn_text := fun _ _ => [];
     json_loads := fun _ => Raise (Exn ValueError (py "Expecting value"));
     prepare_image_data_uri := fun s => py "data:image/png;base64," ++ s |}.

Definition gemini_config : dict :=
  <[py "format" := VStr (py "gemini")]>
    (<[py "base_url" := VStr (py "https://g.example")]> ∅).

Definition plain_config : dict :=
  <[py "base_url" := VStr (py "https://g.example")]> ∅.

Definition seed_zero_config : dict :=
  <[py "seed" := VInt 0]> (<[py "base_url" := VStr (py "https://g.example/v1/")]> ∅).

Definition seed_config : dict :=
  <[py "seed" := VInt 42]> (<[py "base_url" := VStr (py "https://g.example/v1/")]> ∅).

(** A configuration source that only exposes leaf values of [model2] and a
    nested object for [model1]. *)
Definition sample_getter (key : pystr) (dflt : value) : value :=
  if str_eqb key (py "models.model1") then VDict plain_config
  else if str_eqb key (py "models.model2.base_url") then VStr (py "https://leaf.example")
  else if str_eqb key (py "models.model2.seed") then VInt 7
  else dflt.

(** A dispatcher that knows only the third command. *)
Definition sample_send (w : nat) (cmd mid : pystr) : send_outcome * nat :=
  if str_eqb cmd (py "DELETE_MSG") then (SendRaises (Exn OtherException (py "unknown command")), S w)
  else if str_eqb cmd (py "delete_msg") then (SendReturns (VBool false), S w)
  else (SendReturns (VDict {[ py "status" := VStr (py "ok") ]}), S w).

(** A download function that succeeds on one address and raises on others. *)
Definition sample_download (url : pystr) : result (bool * pystr) :=
  if str_eqb url (py "https://ex.com/a.png") then Ok (true, py "iVBORw0KGgo=")
  else Raise (Exn OtherException (py "timed out")).

(** A run of 1500 characters of the base64 alphabet. *)
Definition long_run : pystr := replicate 1500 65%N.

(** ** Vocabulary of the further properties *)

(** [g] is a contiguous piece of [s]. *)
Definition piece_of (g s : pystr) : Prop := exists a b, s = a ++ g ++ b.

(** The group register after a step of the matcher: unchanged, or a piece
    cut between two cursor positions of the text. *)
Definition cap_ok (s : pystr) (g g' : option pystr) : Prop :=
  g' = g \/ exists s0 s1, s0 `suffix_of` s /\ s1 `suffix_of` s0
                          /\ g' = Some (take (length s0 - length s1) s0).

(** [needle in s] *)
Fixpoint occurs (needle s : pystr) : bool :=
  startswith s needle
  || match s with
     | [] => false
     | _ :: s' => occurs needle s'
     end.

(** [isinstance(v, dict)] *)
Definition is_dict (v : value) : bool :=
  match v with VDict _ => true | _ => false end.

(** The message is the bot's and carries a platform id. *)
Definition recallable `{Builtins} (unicode_isdigit : N -> bool) (bot_id : pystr)
    (msg : stored_message) : Prop :=
  fmt (msg_user_id msg) = bot_id
  /\ str_isdigit unicode_isdigit (fmt (msg_message_id msg)) = true.

(** The negative prompt [merge_negative_prompt] stores. *)
Definition merged_negative `{Builtins} (d : dict) (extra_negative : pystr) : pystr :=
  let existing := get d "negative_prompt_add" (VStr []) in
  if truthy existing then fmt existing ++ py ", " ++ extra_negative else extra_negative.

(** The test of [inject_llm_original_size]. *)
Definition wants_original_size (d : dict) (llm_original_size : pystr) : bool :=
  let api_format := get d "format" (VStr (py "openai")) in
  (eq_str api_format "gemini" || eq_str api_format "zai")
  && match llm_original_size with [] => false | _ => true end.

(** ** More concrete data *)

(** A stand-in for [json.loads] that reads every body as a reply carrying
    that text. *)
Definition reply_builtins : Builtins :=
  {| py_str := fun v => match v with VStr s => s | _ => [] end;
     py_lower := fun s => s;
     exn_text := fun _ _ => [];
     json_loads := fun body => Ok (chat_response body);
     prepare_image_data_uri := fun s => py "data:image/png;base64," ++ s |}.

Definition bearer_config (key : string) : dict :=
  <[py "api_key" := VStr (py "Bearer " ++ py key)]> plain_config.

(** * Properties *)

(** ** The matcher *)

Lemma prev_after_cons prev c x : prev_after prev (c :: x) = prev_after (Some c) x.
Proof.
  unfold prev_after. destruct x as [|d x]; [done|].
  change (last (c :: d :: x)) with (last (d :: x)).
  by destruct (last (d :: x)) eqn:E; [|apply last_None in E].
Qed.

Section MatcherLemmas.
Context {R : Type}.
Implicit Types (k : option N -> pystr -> option R) (p : N -> bool).

Lemma chars_eqb_app (l : pystr) prev (s : pystr) :
  chars (map N.eqb l) prev (l ++ s) = Some (prev_after prev l, s).
Proof.
  revert prev. induction l as [|c l IH]; intros prev; [done|].
  cbn [map chars app]. rewrite N.eqb_refl, IH. by rewrite prev_after_cons.
Qed.

Lemma rep_greedy_sound p lo hi prev s k (r : R) :
  rep_greedy p lo hi prev s k = Some r ->
  exists x s', s = x ++ s' /\ Forall (fun c => p c = true) x /\ lo <= length x
               /\ (forall n, hi = Some n -> length x <= n)
               /\ k (prev_after prev x) s' = Some r.
Proof.
  revert lo hi prev. induction s as [|c s IH]; intros lo hi prev; cbn [rep_greedy].
  - destruct lo; [|discriminate]. intros Hk.
    exists [], []. repeat split; auto; cbn; lia.
  - assert (Hstop : match lo with 0 => k prev (c :: s) | S _ => None end = Some r ->
            exists x s', c :: s = x ++ s' /\ Forall (fun c => p c = true) x
               /\ lo <= length x /\ (forall n, hi = Some n -> length x <= n)
               /\ k (prev_after prev x) s' = Some r).
    { destruct lo; [|discriminate]. intros Hk.
      exists [], (c :: s). repeat split; auto; cbn; lia. }
    destruct (p c && hi_open hi) eqn:Hpc; [|exact Hstop].
    destruct (rep_greedy p (pred lo) (hi_pred hi) (Some c) s k) eqn:Hrec; [|exact Hstop].
    intros [= ->]. apply IH in Hrec as (x & s' & -> & Hx & Hlo & Hhi & Hk).
    apply andb_true_iff in Hpc as [Hp Hopen].
    exists (c :: x), s'. rewrite prev_after_cons.
    repeat split; auto; cbn [length]; try lia.
    intros n ->. destruct n; [discriminate|]. specialize (Hhi n eq_refl). lia.
Qed.

Lemma rep_greedy_stop p lo hi prev s k :
  stops p s ->
  rep_greedy p lo hi prev s k = match lo with 0 => k prev s | S _ => None end.
Proof. destruct s as [|c s]; cbn; [done|]. by intros ->. Qed.

Lemma rep_greedy_run p lo prev x s k (r : R) :
  Forall (fun c => p c = true) x -> lo <= length x ->
  k (prev_after prev x) s = Some r ->
  stops p s ->
  rep_greedy p lo None prev (x ++ s) k = Some r.
Proof.
  intros Hx. revert lo prev. induction Hx as [|c x Hc Hx IH]; intros lo prev Hlo Hk Hs.
  - cbn in Hlo. assert (lo = 0) as -> by lia. by rewrite rep_greedy_stop.
  - cbn [app rep_greedy]. rewrite Hc. cbn [andb hi_open hi_pred].
    rewrite prev_after_cons in Hk.
    rewrite (IH (pred lo) (Some c)); [done| cbn in Hlo; lia | done | done].
Qed.

Lemma rep_greedy_short p lo hi prev s k :
  run_len p s < lo -> rep_greedy p lo hi prev s k = None.
Proof.
  revert lo hi prev. induction s as [|c s IH]; intros lo hi prev Hlt; cbn [rep_greedy].
  - destruct lo; [cbn in Hlt; lia | done].
  - cbn [run_len] in Hlt. destruct (p c) eqn:Hc; cbn [andb].
    + destruct lo as [|lo]; [lia|].
      destruct (hi_open hi); [|done].
      rewrite IH; [done | cbn; lia].
    + destruct lo; [lia | done].
Qed.

Lemma rep_lazy_here p hi prev s k (r : R) :
  k prev s = Some r -> rep_lazy p 0 hi prev s k = Some r.
Proof. intros Hk. destruct s; cbn; by rewrite Hk. Qed.

Lemma rep_lazy_skip p prev x s k :
  Forall (fun c => p c = true /\ forall pv t, k pv (c :: t) = None) x ->
  rep_lazy p 0 None prev (x ++ s) k = rep_lazy p 0 None (prev_after prev x) s k.
Proof.
  intros Hx. revert prev. induction Hx as [|c x [Hc Hk] Hx IH]; intros prev; [done|].
  cbn [app rep_lazy]. rewrite Hk, Hc. cbn [andb hi_open hi_pred pred].
  by rewrite IH, prev_after_cons.
Qed.
End MatcherLemmas.

(** ** Scanning *)

Lemma scan_skip_exact r x prev s :
  scan r (length x) prev (x ++ s) = scan r 0 (prev_after prev x) s.
Proof.
  revert prev. induction x as [|c x IH]; intros prev; [done|].
  cbn [length app scan]. by rewrite IH, prev_after_cons.
Qed.

Lemma scan_no_match r pre prev s :
  (forall a c b, pre = a ++ c :: b -> match_at r (prev_after prev a) (c :: b ++ s) = None) ->
  scan r 0 prev (pre ++ s) = scan r 0 (prev_after prev pre) s.
Proof.
  revert prev. induction pre as [|c pre IH]; intros prev Hno; [done|].
  assert (H0 : match_at r prev (c :: pre ++ s) = None) by apply (Hno [] c pre eq_refl).
  cbn [app scan]. rewrite H0.
  rewrite IH, prev_after_cons; [done|].
  intros a c' b ->. specialize (Hno (c :: a) c' b eq_refl).
  by rewrite prev_after_cons in Hno.
Qed.

Lemma scan_match r prev c s g len :
  match_at r prev (c :: s) = Some (g, len) ->
  scan r 0 prev (c :: s) = g :: scan r (pred len) (Some c) s.
Proof. intros Hm. cbn [scan]. by rewrite Hm. Qed.

Lemma scan_sound r m s : forall n prev,
  m ∈ scan r n prev s ->
  exists a t len, s = a ++ t /\ match_at r (prev_after prev a) t = Some (m, len).
Proof.
  induction s as [|c s IH]; intros n prev Hm.
  - destruct n; cbn [scan] in Hm; [|by apply elem_of_nil in Hm].
    destruct (match_at r prev []) as [[g len]|] eqn:E; [|by apply elem_of_nil in Hm].
    apply list_elem_of_singleton in Hm as ->. by exists [], [], len.
  - assert (Hrec : forall n', m ∈ scan r n' (Some c) s ->
              exists a t len, c :: s = a ++ t /\ match_at r (prev_after prev a) t = Some (m, len)).
    { intros n' Hin. apply IH in Hin as (a & t & len & -> & Hmt).
      exists (c :: a), t, len. by rewrite prev_after_cons. }
    destruct n; cbn [scan] in Hm; [|by eapply Hrec].
    destruct (match_at r prev (c :: s)) as [[g len]|] eqn:E; [|by eapply Hrec].
    apply elem_of_cons in Hm as [->|Hm]; [|by eapply Hrec].
    by exists [], (c :: s), len.
Qed.

Lemma scan_nil r s prev :
  (forall a t, s = a ++ t -> match_at r (prev_after prev a) t = None) ->
  scan r 0 prev s = [].
Proof.
  revert prev. induction s as [|c s IH]; intros prev Hno.
  - assert (H0 : match_at r prev [] = None) by apply (Hno [] [] eq_refl).
    cbn [scan]. by rewrite H0.
  - assert (H0 : match_at r prev (c :: s) = None) by apply (Hno [] (c :: s) eq_refl).
    cbn [scan]. rewrite H0. apply IH.
    intros a t ->. specialize (Hno (c :: a) t eq_refl).
    by rewrite prev_after_cons in Hno.
Qed.

(** ** The base64 pattern *)

Lemma b64_match_short prev t :
  run_len is_b64 t < 200 -> match_at b64_pattern prev t = None.
Proof.
  intros Hlt. unfold match_at, b64_pattern. cbn [mt].
  rewrite rep_greedy_short by done. by destruct prev as [c|]; [destruct (is_b64 c)|].
Qed.

Lemma b64_match_sound prev t m len :
  match_at b64_pattern prev t = Some (m, len) ->
  behind_ok prev
  /\ exists x y t', t = x ++ y ++ t' /\ m = x ++ y /\ len = length m
       /\ Forall (fun c => is_b64 c = true) x /\ 200 <= length x
       /\ Forall (fun c => c = 61%N) y /\ length y <= 2
       /\ stops is_b64 t'.
Proof.
  unfold match_at, b64_pattern. cbn [mt]. intros Hm.
  assert (Hb : behind_ok prev).
  { destruct prev as [c|]; [|done]. cbn. by destruct (is_b64 c). }
  split; [done|].
  assert (Hg : rep_greedy is_b64 200 None prev t
      (λ (prev' : option N) (s' : pystr),
         rep_greedy (N.eqb 61) 0 (Some 2) prev' s'
           (λ (_ : option N) (s'0 : pystr),
              match s'0 with
              | [] => Some (default [] (Some (take (length t - length s'0) t)),
                            length t - length s'0)
              | c :: _ =>
                if is_b64 c then None
                else Some (default [] (Some (take (length t - length s'0) t)),
                           length t - length s'0)
              end)) = Some (m, len)).
  { destruct prev as [c|]; [|done]. by destruct (is_b64 c). }
  clear Hm.
  apply rep_greedy_sound in Hg as (x & s1 & -> & Hx & Hlo & _ & Hg).
  apply rep_greedy_sound in Hg as (y & t' & -> & Hy & _ & Hhi & Hg).
  exists x, y, t'.
  assert (Hl : length (x ++ y ++ t') - length t' = length (x ++ y)).
  { rewrite !length_app. lia. }
  rewrite Hl in Hg.
  assert (Ht : take (length (x ++ y)) (x ++ y ++ t') = x ++ y).
  { by rewrite app_assoc, take_app_length. }
  rewrite Ht in Hg. cbn [default] in Hg.
  assert (Hres : m = x ++ y /\ len = length (x ++ y) /\ stops is_b64 t').
  { destruct t' as [|c t']; [by injection Hg as <- <-|].
    cbn. destruct (is_b64 c); [discriminate|]. by injection Hg as <- <-. }
  destruct Hres as (-> & -> & Hstop).
  repeat split; try done.
  - eapply Forall_impl; [exact Hy|]. intros c Hc. by apply N.eqb_eq in Hc.
  - by apply Hhi.
Qed.

Section MdLemmas.
Context {R : Type}.

Lemma chars_eqb_head_ne (a c : N) (l t : pystr) prev :
  a <> c -> chars (map N.eqb (a :: l)) prev (c :: t) = None.
Proof. intros Hne. cbn. by apply N.eqb_neq in Hne as ->. Qed.

Lemma rep_greedy_closed (p : N -> bool) prev s (k : option N -> pystr -> option R) :
  rep_greedy p 0 (Some 0) prev s k = k prev s.
Proof. destruct s as [|c s]; cbn; [done|]. by rewrite andb_false_r. Qed.

(** The end of a markdown link: the URL body up to the closing bracket. *)
Lemma md_url_body prev body post (F : pystr -> pystr -> R) :
  body <> [] -> Forall (fun c => md_url_char c = true) body ->
  rep_greedy md_url_char 1 None prev (body ++ py ")" ++ post)
    (fun prev4 s4 =>
       match chars (map N.eqb (py ")")) prev4 s4 with
       | Some (_, s5) => Some (F s4 s5)
       | None => None
       end)
  = Some (F (py ")" ++ post) post).
Proof.
  intros Hne Hbody. apply rep_greedy_run; [done| |by rewrite chars_eqb_app|done].
  destruct body; [done|]. cbn. lia.
Qed.
End MdLemmas.

Lemma md_match prev alt scheme body post :
  Forall (fun c => c <> 93%N /\ c <> 10%N) alt ->
  scheme = py "http://" \/ scheme = py "https://" ->
  body <> [] -> Forall (fun c => md_url_char c = true) body ->
  match_at md_pattern prev
    (py "![" ++ alt ++ py "](" ++ scheme ++ body ++ py ")" ++ post)
  = Some (scheme ++ body, 2 + length alt + 2 + length scheme + length body + 1).
Proof.
  intros Halt Hscheme Hbody Hurl.
  unfold match_at, md_pattern, Lit. cbn [mt].
  rewrite chars_eqb_app, rep_lazy_skip.
  2:{ eapply Forall_impl; [exact Halt|]. intros c [H93 H10]. split.
      - unfold dot. by apply N.eqb_neq in H10 as ->.
      - intros pv t. change (py "](") with [93%N; 40%N].
        by rewrite chars_eqb_head_ne. }
  apply rep_lazy_here. rewrite chars_eqb_app.
  set (whole := py "![" ++ alt ++ py "](" ++ scheme ++ body ++ py ")" ++ post).
  assert (Hlen : length whole - length post
                 = 2 + length alt + 2 + length scheme + length body + 1).
  { subst whole. rewrite !length_app. change (length (py "![")) with 2.
    change (length (py "](")) with 2. change (length (py ")")) with 1. lia. }
  assert (Htake : take (length (scheme ++ body ++ py ")" ++ post)
                        - length (py ")" ++ post)) (scheme ++ body ++ py ")" ++ post)
                  = scheme ++ body).
  { rewrite (app_assoc scheme body). rewrite (length_app (scheme ++ body)).
    replace (length (scheme ++ body) + length (py ")" ++ post) - length (py ")" ++ post))
      with (length (scheme ++ body)) by lia.
    apply take_app_length. }
  destruct Hscheme as [-> | ->].
  - change (py "http://") with (py "http" ++ py "://") in *.
    rewrite <- (app_assoc (py "http")). rewrite chars_eqb_app.
    rewrite rep_greedy_stop by done.
    rewrite chars_eqb_app.
    rewrite (md_url_body _ body post
               (fun s4 s5 => (default [] (Some (take
                   (length ((py "http" ++ py "://") ++ body ++ py ")" ++ post) - length s4)
                   ((py "http" ++ py "://") ++ body ++ py ")" ++ post))),
                 length whole - length s5))) by done.
    by rewrite Htake, Hlen.
  - change (py "https://") with (py "http" ++ 115%N :: py "://") in *.
    rewrite <- (app_assoc (py "http")). rewrite chars_eqb_app.
    cbn [app rep_greedy N.eqb Pos.eqb andb hi_open hi_pred pred].
    rewrite rep_greedy_closed.
    rewrite chars_eqb_app.
    rewrite (md_url_body _ body post
               (fun s4 s5 => (default [] (Some (take
                   (length ((py "http" ++ 115%N :: py "://") ++ body ++ py ")" ++ post) - length s4)
                   ((py "http" ++ 115%N :: py "://") ++ body ++ py ")" ++ post))),
                 length whole - length s5))) by done.
    by rewrite Htake, Hlen.
Qed.

Lemma md_match_no_open prev c t :
  c <> 33%N \/ match t with d :: _ => d <> 91%N | [] => True end ->
  match_at md_pattern prev (c :: t) = None.
Proof.
  intros Hc. unfold match_at, md_pattern, Lit. cbn [mt].
  change (py "![") with [33%N; 91%N]. cbn [map chars].
  destruct (N.eqb_spec 33 c) as [<-|Hne]; [|done].
  destruct Hc as [Hc|Hc]; [done|].
  destruct t as [|d t]; [done|]. by destruct (N.eqb_spec 91 d) as [<-|].
Qed.

Lemma has_md_open_split a c b :
  has_md_open (a ++ c :: b) = false ->
  c <> 33%N \/ match b with d :: _ => d <> 91%N | [] => True end.
Proof.
  induction a as [|x a IH]; cbn [app has_md_open]; intros Hno.
  - apply orb_false_iff in Hno as [Hno _]. apply andb_false_iff in Hno as [Hno|Hno].
    + left. by apply N.eqb_neq in Hno.
    + right. destruct b as [|d b]; [done|]. by apply N.eqb_neq in Hno.
  - apply orb_false_iff in Hno as [_ Hno]. by apply IH.
Qed.

Lemma md_findall_first pre alt scheme body post :
  has_md_open pre = false ->
  Forall (fun c => c <> 93%N /\ c <> 10%N) alt ->
  scheme = py "http://" \/ scheme = py "https://" ->
  body <> [] -> Forall (fun c => md_url_char c = true) body ->
  head (findall md_pattern
          (pre ++ py "![" ++ alt ++ py "](" ++ scheme ++ body ++ py ")" ++ post))
  = Some (scheme ++ body).
Proof.
  intros Hpre Halt Hscheme Hbody Hurl. unfold findall.
  rewrite scan_no_match.
  - change (py "![") with ([33%N; 91%N]). cbn [app].
    erewrite scan_match; [done|].
    apply (md_match _ alt scheme body post Halt Hscheme Hbody Hurl).
  - intros a c b ->. apply md_match_no_open.
    apply has_md_open_split in Hpre as [Hc|Hb]; [by left|right].
    destruct b as [|d b]; [done|exact Hb].
Qed.

Lemma run_len_suffix p a t : run_len p t <= longest_run p (a ++ t).
Proof.
  induction a as [|c a IH]; cbn [app].
  - destruct t as [|c t]; [cbn; lia|]. cbn [longest_run]. apply Nat.le_max_l.
  - cbn [longest_run]. etrans; [exact IH | apply Nat.le_max_r].
Qed.

Lemma run_len_app_ends p t rest :
  t <> [] -> ends_ok p t -> run_len p (t ++ rest) = run_len p t.
Proof.
  induction t as [|c t IH]; [done|]. intros _ Hend.
  destruct t as [|d t].
  - cbn in Hend. cbn. by rewrite Hend.
  - cbn [app run_len]. destruct (p c); [|done].
    f_equal. apply IH; [done | exact Hend].
Qed.

Lemma ends_ok_suffix p a c b : ends_ok p (a ++ c :: b) -> ends_ok p (c :: b).
Proof.
  unfold ends_ok. by rewrite last_app_cons.
Qed.

Lemma ends_ok_behind p pre : ends_ok p pre -> 
  match prev_after None pre with Some c => p c = false | None => True end.
Proof. unfold ends_ok, prev_after. by destruct (last pre). Qed.

Lemma max_by_len_in x l : max_by_len x l ∈ x :: l.
Proof.
  revert x. induction l as [|y l IH]; intros x; cbn [max_by_len].
  - apply list_elem_of_here.
  - specialize (IH (if length x <? length y then y else x)).
    apply elem_of_cons in IH as [->|IH].
    + destruct (length x <? length y); [apply list_elem_of_further|]; apply list_elem_of_here.
    + by do 2 apply list_elem_of_further.
Qed.

Lemma max_by_len_ge x l y : y ∈ x :: l -> length y <= length (max_by_len x l).
Proof.
  revert x y. induction l as [|z l IH]; intros x y Hy; cbn [max_by_len].
  - apply list_elem_of_singleton in Hy as ->. lia.
  - set (x' := if length x <? length z then z else x).
    pose proof (IH x' x' (list_elem_of_here _ _)) as Hm.
    assert (Hx : length x <= length x' /\ length z <= length x').
    { subst x'. destruct (Nat.ltb_spec (length x) (length z)); lia. }
    apply elem_of_cons in Hy as [->|Hy]; [lia|].
    apply elem_of_cons in Hy as [->|Hy]; [lia|].
    apply IH. by apply list_elem_of_further.
Qed.

Lemma b64_findall_sound content m :
  m ∈ findall b64_pattern content ->
  exists a x y b,
    content = a ++ x ++ y ++ b /\ m = x ++ y
    /\ Forall (fun c => is_b64 c = true) x /\ 200 <= length x
    /\ Forall (fun c => c = 61%N) y /\ length y <= 2
    /\ ends_ok is_b64 a /\ stops is_b64 b.
Proof.
  intros Hm. apply scan_sound in Hm as (a & t & len & -> & Hm).
  apply b64_match_sound in Hm as (Hb & x & y & b & -> & -> & _ & Hx & Hlen & Hy & Hly & Hs).
  exists a, x, y, b. repeat split; try done.
  unfold behind_ok, prev_after in Hb. unfold ends_ok. by destruct (last a).
Qed.

Lemma strategy_b64_spec content :
  match strategy_b64 content with
  | Some m =>
    m ∈ findall b64_pattern content
    /\ (forall m', m' ∈ findall b64_pattern content -> length m' <= length m)
    /\ (startswith_any m b64_signatures = true \/ 1000 < length m)
  | None =>
    findall b64_pattern content = []
    \/ exists m, m ∈ findall b64_pattern content
         /\ (forall m', m' ∈ findall b64_pattern content -> length m' <= length m)
         /\ startswith_any m b64_signatures = false /\ length m <= 1000
  end.
Proof.
  unfold strategy_b64. destruct (findall b64_pattern content) as [|m ms]; [by left|].
  cbv zeta.
  pose proof (max_by_len_in m ms) as Hin.
  pose proof (max_by_len_ge m ms) as Hge.
  destruct (startswith_any (max_by_len m ms) b64_signatures) eqn:Hsig; cbn [orb].
  - repeat split; auto.
  - destruct (Nat.ltb_spec 1000 (length (max_by_len m ms))).
    + repeat split; auto.
    + right. exists (max_by_len m ms). repeat split; auto.
Qed.

Section Fallback.
Context {R : Type}.
Lemma rep_greedy_fallback (p : N -> bool) hi prev s
    (k : option N -> pystr -> option R) (r0 : R) :
  k prev s = Some r0 -> exists r, rep_greedy p 0 hi prev s k = Some r.
Proof.
  intros Hk. destruct s as [|c s]; cbn [rep_greedy]; [eauto|].
  destruct (p c && hi_open hi); [|eauto].
  destruct (rep_greedy p (pred 0) (hi_pred hi) (Some c) s k); eauto.
Qed.
End Fallback.

Lemma run_unique (p : N -> bool) x x' b b' :
  x ++ b = x' ++ b' ->
  Forall (fun c => p c = true) x -> Forall (fun c => p c = true) x' ->
  stops p b -> stops p b' -> x = x'.
Proof.
  intros Heq Hx. revert x' Heq. induction Hx as [|c x Hc Hx IH]; intros x' Heq Hx' Hb Hb'.
  - destruct Hx' as [|c' x' Hc' Hx']; [done|].
    cbn in Heq. subst b. cbn in Hb. congruence.
  - destruct Hx' as [|c' x' Hc' Hx'].
    + cbn in Heq. subst b'. cbn in Hb'. congruence.
    + cbn in Heq. injection Heq as <- Heq. f_equal. by apply IH.
Qed.

Lemma b64_match_exists prev x b :
  behind_ok prev -> Forall (fun c => is_b64 c = true) x -> 200 <= length x ->
  stops is_b64 b ->
  exists y len, match_at b64_pattern prev (x ++ b) = Some (x ++ y, len).
Proof.
  intros Hprev Hx Hlen Hb.
  assert (Hsome : exists r, match_at b64_pattern prev (x ++ b) = Some r).
  { unfold match_at, b64_pattern. cbn [mt].
    set (kf := fun (_ : option N) (s'0 : pystr) =>
       match s'0 with
       | [] => Some (default [] (Some (take (length (x ++ b) - length s'0) (x ++ b))),
                     length (x ++ b) - length s'0)
       | c :: _ =>
         if is_b64 c then None
         else Some (default [] (Some (take (length (x ++ b) - length s'0) (x ++ b))),
                    length (x ++ b) - length s'0)
       end).
    destruct (rep_greedy_fallback (N.eqb 61) (Some 2) (prev_after prev x) b kf
                (default [] (Some (take (length (x ++ b) - length b) (x ++ b))),
                 length (x ++ b) - length b)) as [r Hr].
    { subst kf. cbv beta. destruct b as [|c b]; [done|]. cbn in Hb. by rewrite Hb. }
    exists r.
    assert (Hgo : rep_greedy is_b64 200 None prev (x ++ b)
              (fun prev' s' => rep_greedy (N.eqb 61) 0 (Some 2) prev' s' kf) = Some r).
    { by apply rep_greedy_run. }
    destruct prev as [c|]; [|exact Hgo]. cbn in Hprev. by rewrite Hprev. }
  destruct Hsome as [[m len] Hm]. pose proof Hm as Hs.
  apply b64_match_sound in Hs as (_ & x' & y & t' & Heq & -> & _ & Hx' & _ & Hy & _ & Ht').
  assert (x = x') as <-.
  { apply (run_unique is_b64 x x' b (y ++ t')); try done.
    destruct Hy as [|c y Hc Hy]; [exact Ht'|]. by subst c. }
  by exists y, len.
Qed.

Lemma b64_match_within prev a x b m len :
  a <> [] -> ends_ok is_b64 a ->
  Forall (fun c => is_b64 c = true) x -> x <> [] ->
  match_at b64_pattern prev (a ++ x ++ b) = Some (m, len) ->
  len <= length a.
Proof.
  intros Ha Hend Hx Hxne Hm.
  apply b64_match_sound in Hm as (_ & x' & y & t' & Heq & -> & -> & Hx' & _ & Hy & _ & Ht').
  destruct (Nat.le_gt_cases (length (x' ++ y)) (length a)) as [|Hgt]; [done|exfalso].
  rewrite length_app in Hgt.
  unfold ends_ok in Hend. rewrite last_lookup in Hend.
  destruct (a !! pred (length a)) as [cl|] eqn:Hcl.
  2:{ apply lookup_ge_None in Hcl. destruct a; [done|cbn in Hcl; lia]. }
  destruct x as [|hx x]; [done|]. apply Forall_cons in Hx as [Hhx _].
  assert (H1 : (a ++ (hx :: x) ++ b) !! pred (length a) = Some cl).
  { rewrite lookup_app_l; [done|]. destruct a; [done|cbn; lia]. }
  assert (H2 : (a ++ (hx :: x) ++ b) !! length a = Some hx).
  { rewrite lookup_app_r by lia. by rewrite Nat.sub_diag. }
  rewrite Heq in H1, H2.
  destruct (Nat.lt_ge_cases (length a) (length x')) as [Hlt|Hge].
  - rewrite lookup_app_l in H1 by lia.
    eapply Forall_lookup_1 in Hx'; [|exact H1]. cbn in Hx'. congruence.
  - rewrite lookup_app_r in H2 by lia. rewrite lookup_app_l in H2 by lia.
    eapply Forall_lookup_1 in Hy; [|exact H2]. cbn in Hy. subst hx. done.
Qed.

Lemma b64_scan_complete a x b : forall n prev,
  n <= length a ->
  (a <> [] -> ends_ok is_b64 a) -> (a = [] -> behind_ok prev) ->
  Forall (fun c => is_b64 c = true) x -> 200 <= length x -> stops is_b64 b ->
  exists y, x ++ y ∈ scan b64_pattern n prev (a ++ x ++ b).
Proof.
  induction a as [|c a IH]; intros n prev Hn Hend Hprev Hx Hlen Hb.
  - cbn in Hn. assert (n = 0) as -> by lia. cbn [app].
    destruct (b64_match_exists prev x b (Hprev eq_refl) Hx Hlen Hb) as (y & len & Hm).
    exists y. destruct x as [|hx x]; [cbn in Hlen; lia|].
    cbn [app] in Hm |- *. erewrite scan_match by exact Hm. apply list_elem_of_here.
  - assert (Hnext : forall n', n' <= length a ->
              exists y, x ++ y ∈ scan b64_pattern n' (Some c) (a ++ x ++ b)).
    { intros n' Hn'. apply IH; try done.
      - intros Hne. specialize (Hend ltac:(done)). destruct a; [done|exact Hend].
      - intros ->. specialize (Hend ltac:(done)). exact Hend. }
    cbn [app]. destruct n as [|n]; cbn [scan].
    + destruct (match_at b64_pattern prev (c :: a ++ x ++ b)) as [[g len]|] eqn:Hm.
      * assert (Hle : len <= length (c :: a)).
        { eapply (b64_match_within prev (c :: a) x b g len); try done.
          - by apply Hend.
          - intros ->. cbn in Hlen. lia. }
        destruct (Hnext (pred len)) as [y Hy]; [cbn in Hle; lia|].
        exists y. by apply list_elem_of_further.
      * apply Hnext. lia.
    + apply Hnext. cbn in Hn. lia.
Qed.

Lemma b64_findall_complete a x b :
  ends_ok is_b64 a -> Forall (fun c => is_b64 c = true) x -> 200 <= length x ->
  stops is_b64 b ->
  exists y, x ++ y ∈ findall b64_pattern (a ++ x ++ b).
Proof.
  intros Hend Hx Hlen Hb. apply b64_scan_complete; try done; lia.
Qed.

Lemma b64_match_padded prev x b :
  behind_ok prev -> Forall (fun c => is_b64 c = true) x -> 200 <= length x ->
  stops is_b64 b ->
  exists y t', b = y ++ t' /\ Forall (fun c => c = 61%N) y /\ length y <= 2
    /\ match_at b64_pattern prev (x ++ b) = Some (x ++ y, length (x ++ y)).
Proof.
  intros Hprev Hx Hlen Hb.
  destruct (b64_match_exists prev x b Hprev Hx Hlen Hb) as (y0 & len & Hm).
  pose proof Hm as Hs.
  apply b64_match_sound in Hs as (_ & x' & y & t' & Heq & Hxy & -> & Hx' & _ & Hy & Hly & Ht').
  assert (x = x') as <-.
  { apply (run_unique is_b64 x x' b (y ++ t')); try done.
    destruct Hy as [|c y Hc Hy]; [exact Ht'|]. by subst c. }
  apply app_inv_head in Heq. apply app_inv_head in Hxy. subst y0.
  by exists y, t'.
Qed.

Lemma b64_findall_single_padded pre run post :
  longest_run is_b64 pre < 200 -> ends_ok is_b64 pre ->
  Forall (fun c => is_b64 c = true) run -> 200 <= length run ->
  stops is_b64 post -> longest_run is_b64 post < 200 ->
  exists y t', post = y ++ t' /\ Forall (fun c => c = 61%N) y /\ length y <= 2
    /\ findall b64_pattern (pre ++ run ++ post) = [run ++ y].
Proof.
  intros Hpre Hend Hrun Hlen Hsb Hpost.
  destruct (b64_match_padded (prev_after None pre) run post) as (y & t' & -> & Hy & Hly & Hm);
    try done.
  { by apply ends_ok_behind. }
  exists y, t'. repeat split; try done.
  unfold findall. rewrite scan_no_match.
  2:{ intros a c b ->. apply b64_match_short.
      rewrite (app_comm_cons b), run_len_app_ends;
        [|done|by apply ends_ok_suffix in Hend].
      pose proof (run_len_suffix is_b64 a (c :: b)). lia. }
  rewrite (app_assoc run y t') in Hm |- *.
  destruct (run ++ y) as [|c ry] eqn:Hry.
  { apply (f_equal length) in Hry. rewrite length_app in Hry. cbn in Hry. lia. }
  cbn [app] in Hm |- *. erewrite scan_match by exact Hm.
  cbn [length pred]. rewrite scan_skip_exact.
  f_equal. apply scan_nil. intros a t ->. apply b64_match_short.
  pose proof (run_len_suffix is_b64 (y ++ a) t) as Hr.
  rewrite <- app_assoc in Hr. lia.
Qed.

Lemma stops_eq_nil (y t' : pystr) :
  Forall (fun c => c = 61%N) y -> stops (N.eqb 61) (y ++ t') -> y = [].
Proof. intros Hy Hs. destruct Hy as [|c y -> _]; [done|]. by cbn in Hs. Qed.

Lemma extract_first_match content :
  extract_from_content content =
  match first_match strategies content with
  | Some payload => (true, payload)
  | None => (false, msg_no_image)
  end.
Proof.
  unfold extract_from_content, strategies. cbn [first_match].
  unfold strategy_md, strategy_data_uri, strategy_url, strategy_any_url.
  destruct (findall md_pattern content); [|done]. cbn [head].
  destruct (findall data_uri_pattern content); [|done]. cbn [head].
  unfold strategy_b64.
  destruct (match findall b64_pattern content with [] => None | m :: ms => _ end); [done|].
  destruct (findall url_pattern content); [|done]. cbn [head].
  by destruct (findall any_url_pattern content).
Qed.

Lemma first_match_app pre f post content payload :
  Forall (fun g : pystr -> option pystr => g content = None) pre ->
  f content = Some payload ->
  first_match (pre ++ f :: post) content = Some payload.
Proof.
  intros Hpre Hf. induction Hpre as [|g pre Hg Hpre IH]; cbn [app first_match].
  - by rewrite Hf.
  - by rewrite Hg.
Qed.

Lemma get_singleton (k : string) (v dflt : value) : get {[py k := v]} k dflt = v.
Proof. unfold get. by rewrite lookup_singleton_eq. Qed.

Lemma extract_chat_response `{Builtins} content :
  content <> [] ->
  _extract_image_from_response (chat_response content) = Ok (extract_from_content content).
Proof.
  intros Hc. unfold _extract_image_from_response, response_content, chat_response.
  cbn [py_get]. rewrite get_singleton. cbn [bind truthy index0 py_get].
  rewrite get_singleton. cbn [bind py_get]. rewrite get_singleton.
  cbn [try_lookup bind]. destruct content as [|c content]; [by destruct Hc|].
  reflexivity.
Qed.





(** ** Configuration lookup *)

Lemma fold_assemble_lookup (g : pystr -> value -> value) (mid : pystr)
    (fs : list string) (acc : dict) (k : pystr) :
  fold_left (assemble_step g mid) fs acc !! k =
  if bool_decide (k ∈ map py fs) then
    let val := g (py "models." ++ mid ++ py "." ++ k) VNone in
    if is_None val then acc !! k else Some val
  else acc !! k.
Proof.
  revert acc. induction fs as [|f fs IH]; intros acc; cbn [fold_left map].
  - rewrite bool_decide_eq_false_2; [done | apply not_elem_of_nil].
  - rewrite IH. unfold assemble_step.
    destruct (decide (k = py f)) as [->|Hne].
    + rewrite (bool_decide_eq_true_2 (py f ∈ py f :: map py fs)) by apply list_elem_of_here.
      destruct (is_None (g _ VNone)) eqn:Hn.
      * by destruct (bool_decide _).
      * rewrite lookup_insert_eq. by destruct (bool_decide _).
    + assert (Hk : bool_decide (k ∈ py f :: map py fs) = bool_decide (k ∈ map py fs)).
      { apply bool_decide_ext. rewrite elem_of_cons. tauto. }
      rewrite Hk.
      destruct (is_None (g (py "models." ++ mid ++ py "." ++ py f) VNone)); [done|].
      by rewrite lookup_insert_ne.
Qed.

Lemma assemble_lookup (g : pystr -> value -> value) (mid k : pystr) :
  assemble g mid !! k = assembled_entry g mid k.
Proof.
  unfold assemble, assembled_entry. rewrite fold_assemble_lookup.
  rewrite lookup_empty. destruct (bool_decide _); [|done].
  simpl. by destruct (is_None _).
Qed.

Lemma usable_spec v :
  usable v = true <-> exists d, v = VDict d /\ truthy (get d "base_url" VNone) = true.
Proof.
  split.
  - destruct v; simpl; try discriminate. eauto.
  - by intros (d & -> & Hd).
Qed.

(** C3. [get_model_config] answers from the first of three tiers that
    succeeds: the value stored at [models.<model_id>] when it is a dict
    whose [base_url] is truthy; else the mapping assembled field by field
    (which holds exactly the non-[None] values of the listed fields) when
    its [base_url] is truthy; else, for a [model_id] other than the default,
    the value stored at [models.<default_model_id>] under the same test; and
    [None] when every tier fails.  The function is total: it returns on
    every input. *)
Theorem get_model_config_three_tiers (config_getter : pystr -> value -> value)
    (model_id default_model_id : pystr) :
  let direct := config_getter (py "models." ++ model_id) VNone in
  let assembled := assemble config_getter model_id in
  let fallback := config_getter (py "models." ++ default_model_id) VNone in
  let tier1 := usable direct in
  let tier2 := truthy (get assembled "base_url" VNone) in
  let tier3 := negb (str_eqb model_id default_model_id) && usable fallback in
  (forall k, assembled !! k = assembled_entry config_getter model_id k)
  /\ get_model_config config_getter model_id default_model_id =
     (if tier1 then direct
      else if tier2 then VDict assembled
      else if tier3 then fallback
      else VNone)
  /\ (tier1 = true <->
      exists d, direct = VDict d /\ truthy (get d "base_url" VNone) = true)
  /\ (tier3 = true <->
      model_id <> default_model_id /\
      exists d, fallback = VDict d /\ truthy (get d "base_url" VNone) = true).
Proof.
  cbv zeta. split; [apply assemble_lookup|].
  split.
  - unfold get_model_config.
    destruct (usable (config_getter (py "models." ++ model_id) VNone)); [done|].
    destruct (truthy (get (assemble config_getter model_id) "base_url" VNone)); [done|].
    destruct (negb (str_eqb model_id default_model_id)); [|done].
    by destruct (usable _).
  - split; [apply usable_spec|].
    rewrite andb_true_iff, negb_true_iff, usable_spec. unfold str_eqb.
    rewrite bool_decide_eq_false. tauto.
Qed.

(** C10. Whatever [get_model_config] returns is either [None] or a dict
    whose [base_url] is truthy. *)
Theorem get_model_config_usable (config_getter : pystr -> value -> value)
    (model_id default_model_id : pystr) :
  get_model_config config_getter model_id default_model_id = VNone
  \/ exists d, get_model_config config_getter model_id default_model_id = VDict d
               /\ truthy (get d "base_url" VNone) = true.
Proof.
  unfold get_model_config.
  destruct (usable (config_getter (py "models." ++ model_id) VNone)) eqn:H1.
  { right. apply usable_spec, H1. }
  destruct (truthy (get (assemble config_getter model_id) "base_url" VNone)) eqn:H2.
  { right. eauto. }
  destruct (negb (str_eqb model_id default_model_id)); [|by left].
  destruct (usable (config_getter (py "models." ++ default_model_id) VNone)) eqn:H3.
  - right. apply usable_spec, H3.
  - by left.
Qed.

(** ** Derived configurations *)

Lemma fresh_loc_not_in (σ : store) : σ !! fresh (dom σ) = None.
Proof. apply not_elem_of_dom, is_fresh. Qed.

(** Copying a dictionary and assigning one key of the copy adds one object
    to the store and leaves every object that was there as it was. *)
Lemma copy_then_setitem (σ : store) (l : loc) (d : dict) (k : string) (v : value) :
  σ !! l = Some d ->
  setitem (dict_copy σ l).2 (dict_copy σ l).1 k v
  = <[fresh (dom σ) := <[py k := v]> d]> σ.
Proof.
  intros Hl. unfold setitem, dict_copy, deref. cbn [fst snd].
  rewrite lookup_insert_eq, Hl. cbn [default]. apply insert_insert_eq.
Qed.

Lemma copy_deref (σ : store) (l : loc) (d : dict) :
  σ !! l = Some d -> deref (dict_copy σ l).2 (dict_copy σ l).1 = d.
Proof.
  intros Hl. unfold dict_copy, deref. cbn [fst snd].
  by rewrite lookup_insert_eq, Hl.
Qed.

(** C7. [inject_llm_original_size] returns the very dictionary it was given
    when the format is neither [gemini] nor [zai] ([openai] and a missing
    format among them) or the size is empty; for [gemini] and [zai] with a
    size it builds a new dictionary that differs from the input in the key
    [_llm_original_size] alone, and the store keeps every existing
    dictionary, the input among them, as it was. *)
Theorem inject_llm_original_size_frame (σ : store) (model_config : loc) (d : dict)
    (llm_original_size : pystr) :
  σ !! model_config = Some d ->
  let api_format := get d "format" (VStr (py "openai")) in
  (api_format = VStr (py "openai") ->
   inject_llm_original_size σ model_config llm_original_size = (model_config, σ))
  /\ ((api_format <> VStr (py "gemini") /\ api_format <> VStr (py "zai"))
      \/ llm_original_size = [] ->
      inject_llm_original_size σ model_config llm_original_size = (model_config, σ))
  /\ ((api_format = VStr (py "gemini") \/ api_format = VStr (py "zai")) ->
      llm_original_size <> [] ->
      exists (config : loc) (d' : dict),
        inject_llm_original_size σ model_config llm_original_size
        = (config, <[config := d']> σ)
        /\ σ !! config = None
        /\ config <> model_config
        /\ (<[config := d']> σ) !! model_config = Some d
        /\ (forall l, l <> config -> (<[config := d']> σ) !! l = σ !! l)
        /\ d' !! py "_llm_original_size" = Some (VStr llm_original_size)
        /\ (forall k, k <> py "_llm_original_size" -> d' !! k = d !! k)).
Proof.
  intros Hl api_format.
  assert (Hfmt : get (deref σ model_config) "format" (VStr (py "openai")) = api_format).
  { unfold deref. by rewrite Hl. }
  assert (Hnoop : eq_str api_format "gemini" || eq_str api_format "zai" = false ->
                  inject_llm_original_size σ model_config llm_original_size
                  = (model_config, σ)).
  { intros Hb. unfold inject_llm_original_size. by rewrite Hfmt, Hb. }
  split; [|split].
  - intros ->. by apply Hnoop.
  - intros [[Hg Hz]| ->].
    + apply Hnoop. apply orb_false_iff. unfold eq_str, str_eqb.
      destruct api_format; try done.
      split; apply bool_decide_eq_false; congruence.
    + unfold inject_llm_original_size. by rewrite andb_false_r.
  - intros Hgz Hsize.
    exists (fresh (dom σ)), (<[py "_llm_original_size" := VStr llm_original_size]> d).
    split; [|repeat split].
    + unfold inject_llm_original_size. rewrite Hfmt.
      assert (eq_str api_format "gemini" || eq_str api_format "zai" = true) as ->.
      { destruct Hgz as [->| ->]; by vm_compute. }
      destruct llm_original_size as [|c s]; [done|]. cbn [andb].
      pose proof (copy_then_setitem σ model_config d "_llm_original_size"
                    (VStr (c :: s)) Hl) as Hc.
      destruct (dict_copy σ model_config) as [config σ1] eqn:Hcopy.
      cbn [fst snd] in Hc. rewrite Hc.
      unfold dict_copy in Hcopy. by inversion Hcopy.
    + apply fresh_loc_not_in.
    + intros Heq. pose proof (fresh_loc_not_in σ) as Hf. rewrite Heq, Hl in Hf. done.
    + rewrite lookup_insert_ne; [done|].
      intros Heq. pose proof (fresh_loc_not_in σ) as Hf. rewrite Heq, Hl in Hf. done.
    + intros l Hne. by rewrite lookup_insert_ne.
    + apply lookup_insert_eq.
    + intros k Hk. by rewrite lookup_insert_ne.
Qed.

Lemma inject_llm_original_size_frame_witness :
  exists (config : loc) (d' : dict),
    inject_llm_original_size {[1%positive := gemini_config]} 1%positive (py "1024x1024")
    = (config, <[config := d']> {[1%positive := gemini_config]})
    /\ config <> 1%positive
    /\ d' !! py "_llm_original_size" = Some (VStr (py "1024x1024"))
    /\ d' !! py "format" = Some (VStr (py "gemini")).
Proof.
  destruct (inject_llm_original_size_frame {[1%positive := gemini_config]} 1%positive
              gemini_config (py "1024x1024") (lookup_singleton_eq _ _))
    as (_ & _ & Hgem).
  destruct Hgem as (config & d' & Heq & _ & Hne & _ & _ & Hsz & Hother).
  - left. reflexivity.
  - discriminate.
  - exists config, d'. repeat split; try assumption.
    rewrite Hother by discriminate. reflexivity.
Defined.

(** C6, as the code has it.  With an empty [extra_negative] the function
    returns the very dictionary it was given.  With a non-empty one it
    returns a new dictionary that differs from the input in the key
    [negative_prompt_add] alone: that key holds ["existing, extra"] when the
    input's value for it is truthy and [extra] alone when it is empty or
    missing.  The store keeps every existing dictionary, the input among
    them, as it was. *)
Theorem merge_negative_prompt_copy `{Builtins} (σ : store) (model_config : loc)
    (d : dict) (extra_negative : pystr) :
  σ !! model_config = Some d ->
  let existing := get d "negative_prompt_add" (VStr []) in
  merge_negative_prompt σ model_config [] = (model_config, σ)
  /\ (extra_negative <> [] ->
      exists (config : loc) (d' : dict),
        merge_negative_prompt σ model_config extra_negative
        = (config, <[config := d']> σ)
        /\ σ !! config = None
        /\ config <> model_config
        /\ (<[config := d']> σ) !! model_config = Some d
        /\ (forall l, l <> config -> (<[config := d']> σ) !! l = σ !! l)
        /\ d' !! py "negative_prompt_add"
           = Some (VStr (if truthy existing
                         then fmt existing ++ py ", " ++ extra_negative
                         else extra_negative))
        /\ (forall k, k <> py "negative_prompt_add" -> d' !! k = d !! k)).
Proof.
  intros Hl existing. split; [reflexivity|].
  intros Hextra.
  set (new := VStr (if truthy existing
                    then fmt existing ++ py ", " ++ extra_negative
                    else extra_negative)).
  exists (fresh (dom σ)), (<[py "negative_prompt_add" := new]> d).
  assert (Hfresh : fresh (dom σ) <> model_config).
  { intros Heq. pose proof (fresh_loc_not_in σ) as Hf. rewrite Heq, Hl in Hf. done. }
  split; [|repeat split].
  - destruct extra_negative as [|c s]; [done|].
    unfold merge_negative_prompt.
    pose proof (copy_deref σ model_config d Hl) as Hd.
    pose proof (copy_then_setitem σ model_config d "negative_prompt_add") as Hc.
    destruct (dict_copy σ model_config) as [config σ1] eqn:Hcopy.
    cbn [fst snd] in Hd, Hc. rewrite Hd. fold existing.
    assert (config = fresh (dom σ)) as -> by (unfold dict_copy in Hcopy; by inversion Hcopy).
    subst new. destruct (truthy existing); by rewrite Hc.
  - apply fresh_loc_not_in.
  - done.
  - by rewrite lookup_insert_ne.
  - intros l Hne. by rewrite lookup_insert_ne.
  - apply lookup_insert_eq.
  - intros k Hk. by rewrite lookup_insert_ne.
Qed.

Lemma merge_negative_prompt_copy_witness :
  merge_negative_prompt (H := plain_builtins) {[1%positive := gemini_config]} 1%positive []
  = (1%positive, {[1%positive := gemini_config]})
  /\ exists (config : loc) (d' : dict),
      merge_negative_prompt (H := plain_builtins) {[1%positive := gemini_config]} 1%positive
                            (py "blurry")
      = (config, <[config := d']> {[1%positive := gemini_config]})
      /\ config <> 1%positive
      /\ d' !! py "negative_prompt_add" = Some (VStr (py "blurry")).
Proof.
  destruct (merge_negative_prompt_copy (H := plain_builtins) {[1%positive := gemini_config]}
              1%positive gemini_config (py "blurry") (lookup_singleton_eq _ _))
    as (Hid & Hcopy).
  split; [exact Hid|].
  destruct Hcopy as (config & d' & Heq & _ & Hne & _ & _ & Hneg & _); [discriminate|].
  exists config, d'. repeat split; assumption.
Defined.

(** C6 as stated fails where the input has no negative prompt of its own and
    [extra_negative] is given: the two are not both non-empty, yet the
    result is not the input passed through, it is a new dictionary that
    carries [extra_negative]. *)
Lemma merge_negative_prompt_not_passthrough :
  let σ : store := {[1%positive := plain_config]} in
  let r := merge_negative_prompt (H := plain_builtins) σ 1%positive (py "blurry") in
  truthy (get plain_config "negative_prompt_add" (VStr [])) = false
  /\ bool_decide (r.1 = 1%positive) = false
  /\ deref r.2 r.1 !! py "negative_prompt_add" = Some (VStr (py "blurry"))
  /\ plain_config !! py "negative_prompt_add" = None.
Proof. vm_compute. repeat split. Qed.

(** ** Image data *)

Lemma startswith_app (p t : pystr) : startswith (p ++ t) p = true.
Proof. induction p as [|a p IH]; [done|]. cbn. by rewrite N.eqb_refl. Qed.

Lemma startswith_any_app (ps : list pystr) (p t : pystr) :
  p ∈ ps -> startswith_any (p ++ t) ps = true.
Proof.
  intros Hp. apply existsb_exists. exists p.
  split; [apply list_elem_of_In, Hp | apply startswith_app].
Qed.

(** C4. A string that starts with one of the four signature prefixes comes
    back unchanged as [(True, s)] and the download function is not called.
    Any other string is passed to the download function exactly once; a
    successful download is returned as it is, a failed one and a raised
    exception both become a failure result, and nothing is raised. *)
Theorem resolve_image_data_spec (download_fn : pystr -> result (bool * pystr)) :
  (forall p t, p ∈ [py "iVBORw"; py "/9j/"; py "UklGR"; py "R0lGOD"] ->
     resolve_image_data (p ++ t) download_fn = (Ok (true, p ++ t), []))
  /\ (forall s, startswith_any s BASE64_IMAGE_PREFIXES = false ->
      (resolve_image_data s download_fn).2 = [s]
      /\ (forall data, download_fn s = Ok (true, data) ->
            (resolve_image_data s download_fn).1 = Ok (true, data))
      /\ (forall err, download_fn s = Ok (false, err) ->
            (resolve_image_data s download_fn).1 = Ok (false, py "图片下载失败: " ++ err))
      /\ (forall e, download_fn s = Raise e ->
            (resolve_image_data s download_fn).1 = Ok (false, py "图片下载失败")))
  /\ (forall s, exists r, (resolve_image_data s download_fn).1 = Ok r).
Proof.
  split; [|split].
  - intros p t Hp. unfold resolve_image_data.
    by rewrite (startswith_any_app BASE64_IMAGE_PREFIXES p t Hp).
  - intros s Hs. unfold resolve_image_data. rewrite Hs. cbn [fst snd].
    split; [done|]. repeat split; by intros ? ->.
  - intros s. unfold resolve_image_data.
    destruct (startswith_any s BASE64_IMAGE_PREFIXES); cbn [fst]; [eauto|].
    destruct (download_fn s) as [[[] ?]|]; eauto.
Qed.

(** ** The recall loop *)

Section RecallProperties.
Context `{Builtins} {W : Type}.
Variable send_command_fn : W -> pystr -> pystr -> send_outcome * W.
Variable target_message_id : pystr.

(** The invariant of the loop over any list of candidates. *)
Lemma recall_loop_run (cmds : list pystr) (w : W) :
  let r := recall_loop send_command_fn target_message_id cmds w in
  match run_exit r with
  | ExitBreak =>
    exists pre cmd v post,
      cmds = pre.*1 ++ cmd :: post
      /\ run_sent r = pre ++ [(cmd, SendReturns v)]
      /\ indicates_success v = true
      /\ Forall (fun co => failed co.2) pre
      /\ LogRecalled cmd ∈ run_log r
  | ExitExhausted =>
    (run_sent r).*1 = cmds /\ Forall (fun co => failed co.2) (run_sent r)
  | ExitCancelled =>
    exists pre cmd post,
      cmds = pre.*1 ++ cmd :: post
      /\ run_sent r = pre ++ [(cmd, SendCancelled)]
      /\ Forall (fun co => failed co.2) pre
  end.
Proof.
  revert w. induction cmds as [|cmd cmds IH]; intros w; cbn [recall_loop].
  - cbn. split; [done | constructor].
  - destruct (send_command_fn w cmd target_message_id) as [[v|e|] w'].
    + destruct (indicates_success v) eqn:Hv.
      * cbn. exists [], cmd, v, cmds. repeat split; try done.
        apply list_elem_of_here.
      * specialize (IH w'). cbv zeta in IH |- *.
        set (r := recall_loop send_command_fn target_message_id cmds w') in *.
        cbn [cons_sent run_exit run_sent run_log].
        destruct (run_exit r).
        -- destruct IH as (pre & c & v' & post & -> & Hs & Hv' & Hpre & Hlog).
           exists ((cmd, SendReturns v) :: pre), c, v', post.
           rewrite Hs. repeat split; try done.
           constructor; [exact Hv | exact Hpre].
        -- destruct IH as [Hc Hf]. split; [cbn; by rewrite Hc|].
           constructor; [exact Hv | exact Hf].
        -- destruct IH as (pre & c & post & -> & Hs & Hpre).
           exists ((cmd, SendReturns v) :: pre), c, post.
           rewrite Hs. repeat split; try done.
           constructor; [exact Hv | exact Hpre].
    + specialize (IH w'). cbv zeta in IH |- *.
      set (r := recall_loop send_command_fn target_message_id cmds w') in *.
      cbn [cons_sent run_exit run_sent run_log].
      destruct (run_exit r).
      * destruct IH as (pre & c & v' & post & -> & Hs & Hv' & Hpre & Hlog).
        exists ((cmd, SendRaises e) :: pre), c, v', post.
        rewrite Hs. repeat split; try done.
        -- constructor; [exact I | exact Hpre].
        -- apply list_elem_of_further, Hlog.
      * destruct IH as [Hc Hf]. split; [cbn; by rewrite Hc|].
        constructor; [exact I | exact Hf].
      * destruct IH as (pre & c & post & -> & Hs & Hpre).
        exists ((cmd, SendRaises e) :: pre), c, post.
        rewrite Hs. repeat split; try done.
        constructor; [exact I | exact Hpre].
    + cbn. exists [], cmd, cmds. repeat split; try done.
Qed.

Lemma indicates_success_spec (v : value) :
  indicates_success v = true <->
  v = VBool true
  \/ exists d, v = VDict d /\
       (py_lower (py_str (get d "status" (VStr []))) = py "ok"
        \/ py_lower (py_str (get d "status" (VStr []))) = py "success"
        \/ eq_int (get d "retcode" VNone) 0 = true
        \/ eq_int (get d "code" VNone) 0 = true).
Proof.
  destruct v as [| b | | | | |d]; cbn [indicates_success];
    try (split; [discriminate | intros [?|(? & ? & _)]; discriminate]).
  - split; [intros ->; by left | intros [?|(? & ? & _)]; [congruence | discriminate]].
  - rewrite !orb_true_iff. unfold str_eqb. rewrite !bool_decide_eq_true.
    split.
    + intros Hs. right. exists d. split; [done | tauto].
    + intros [?|(d' & Hd & Hs)]; [discriminate|].
      injection Hd as <-. tauto.
Qed.

(** C9. The task sends the candidate commands in their declared order
    and stops at the first whose result indicates success (the boolean
    [True], or a dict whose lower-cased status is [ok] or [success] or
    whose [retcode] or [code] equals [0]): the commands sent are then the
    candidates up to that one, each earlier one having failed or raised,
    and no later one is sent.  When every command sent failed or raised,
    all four were sent, the warning is the last log entry, and the task
    ends normally.  The task never raises. *)
Theorem recall_attempts_first_success (w : W) :
  let res := (recall_attempts send_command_fn target_message_id w).1 in
  let r := (recall_attempts send_command_fn target_message_id w).2 in
  res = Ok ()
  /\ (run_sent r).*1 `prefix_of`
       [py "DELETE_MSG"; py "delete_msg"; py "RECALL_MSG"; py "recall_msg"]
  /\ match run_exit r with
     | ExitBreak =>
       exists pre cmd v,
         run_sent r = pre ++ [(cmd, SendReturns v)]
         /\ indicates_success v = true
         /\ Forall (fun co => failed co.2) pre
         /\ LogRecalled cmd ∈ run_log r
     | ExitExhausted =>
       (run_sent r).*1 = DELETE_COMMAND_CANDIDATES
       /\ Forall (fun co => failed co.2) (run_sent r)
       /\ last (run_log r) = Some LogExhausted
     | ExitCancelled =>
       exists pre cmd,
         run_sent r = pre ++ [(cmd, SendCancelled)]
         /\ Forall (fun co => failed co.2) pre
     end
  /\ (Forall (fun co => failed co.2) (run_sent r) -> run_exit r = ExitExhausted)
  /\ (forall v, indicates_success v = true <->
        v = VBool true
        \/ exists d, v = VDict d /\
             (py_lower (py_str (get d "status" (VStr []))) = py "ok"
              \/ py_lower (py_str (get d "status" (VStr []))) = py "success"
              \/ eq_int (get d "retcode" VNone) 0 = true
              \/ eq_int (get d "code" VNone) 0 = true)).
Proof.
  cbv zeta. unfold recall_attempts.
  pose proof (recall_loop_run DELETE_COMMAND_CANDIDATES w) as Hrun.
  cbv zeta in Hrun.
  set (r0 := recall_loop send_command_fn target_message_id DELETE_COMMAND_CANDIDATES w) in *.
  assert (Hfail : forall pre (o : send_outcome) (cmd : pystr),
             ~ failed o -> ~ Forall (fun co : pystr * send_outcome => failed co.2)
                             (pre ++ [(cmd, o)])).
  { intros pre o cmd Ho HF. apply Forall_app in HF as [_ HF].
    apply Forall_cons in HF as [HF _]. by apply Ho. }
  destruct (run_exit r0) eqn:Hexit; cbn [fst snd run_sent run_exit run_log].
  - rewrite Hexit.
    destruct Hrun as (pre & cmd & v & post & Hc & Hs & Hv & Hpre & Hlog).
    split; [done|]. split.
    { rewrite Hs, fmap_app. cbn. exists post.
      change [py "DELETE_MSG"; py "delete_msg"; py "RECALL_MSG"; py "recall_msg"]
        with DELETE_COMMAND_CANDIDATES.
      rewrite Hc. by rewrite <- app_assoc. }
    split; [by exists pre, cmd, v|].
    split; [|apply indicates_success_spec].
    rewrite Hs. intros HF. exfalso. revert HF. apply Hfail.
    cbn. by rewrite Hv.
  - destruct Hrun as [Hc Hf].
    split; [done|]. split; [by rewrite Hc|].
    split; [|split; [done | apply indicates_success_spec]].
    split; [done|]. split; [done|]. apply last_snoc.
  - destruct Hrun as (pre & cmd & post & Hc & Hs & Hpre).
    split; [done|]. split.
    { rewrite Hs, fmap_app. cbn. exists post.
      change [py "DELETE_MSG"; py "delete_msg"; py "RECALL_MSG"; py "recall_msg"]
        with DELETE_COMMAND_CANDIDATES.
      rewrite Hc. by rewrite <- app_assoc. }
    split; [by exists pre, cmd|].
    split; [|apply indicates_success_spec].
    rewrite Hs. intros HF. exfalso. revert HF. apply Hfail. cbn. tauto.
Qed.
End RecallProperties.

(** ** The chat client: HTTP outcome and payload *)

Section ChatClientProperties.
Context `{Builtins}.


(** C8, as the code has it.  For a configuration whose [base_url] and
    [custom_prompt_add] are strings or absent the payload is built; and in
    every payload built, [seed] is present exactly when the configured
    seed is truthy and different from [-1] (it then holds that seed), and
    [size] is present exactly when the size string is not empty (it
    then holds that string). *)
Theorem request_payload_optional_fields (prompt : pystr) (model_config : dict)
    (size : pystr) (strength : option float) (input_image_base64 : option pystr) :
  let seed := get model_config "seed" (VInt (-1)) in
  ((exists u, get model_config "base_url" (VStr []) = VStr u) ->
   (exists a, get model_config "custom_prompt_add" (VStr []) = VStr a) ->
   exists endpoint payload_dict,
     request_payload prompt model_config size strength input_image_base64
     = Ok (endpoint, payload_dict))
  /\ (forall endpoint payload_dict,
        request_payload prompt model_config size strength input_image_base64
        = Ok (endpoint, payload_dict) ->
        payload_dict !! py "seed"
        = (if truthy seed && negb (eq_int seed (-1)) then Some seed else None)
        /\ payload_dict !! py "size"
           = (match size with [] => None | _ => Some (VStr size) end)
        /\ payload_dict !! py "model" = Some (get model_config "model" (VStr []))
        /\ is_Some (payload_dict !! py "messages")).
Proof.
  cbv zeta. split.
  - intros [u Hu] [a Ha]. unfold request_payload. rewrite Hu, Ha. cbn [bind]. eauto.
  - intros endpoint payload_dict. unfold request_payload.
    destruct (get model_config "base_url" (VStr [])); try discriminate.
    cbn [bind].
    destruct (get model_config "custom_prompt_add" (VStr [])); try discriminate.
    cbn [bind]. intros Heq. injection Heq as _ <-.
    destruct (truthy (get model_config "seed" (VInt (-1)))
              && negb (eq_int (get model_config "seed" (VInt (-1))) (-1)));
      destruct size; repeat split;
      rewrite ?lookup_insert_eq;
      repeat (rewrite lookup_insert_ne by (by vm_compute));
      rewrite ?lookup_insert_eq, ?lookup_empty; eauto.
Qed.
End ChatClientProperties.

Lemma request_payload_optional_fields_witness :
  exists endpoint payload_dict,
    request_payload (H := plain_builtins) (py "a cat") seed_config (py "1024x1024")
                    None None
    = Ok (endpoint, payload_dict)
    /\ payload_dict !! py "seed" = Some (VInt 42)
    /\ payload_dict !! py "size" = Some (VStr (py "1024x1024")).
Proof.
  destruct (request_payload_optional_fields (H := plain_builtins) (py "a cat") seed_config
              (py "1024x1024") None None) as [Hbuilt Hfields].
  destruct Hbuilt as (endpoint & payload_dict & Heq).
  - by eexists.
  - by eexists.
  - exists endpoint, payload_dict. split; [exact Heq|].
    destruct (Hfields endpoint payload_dict Heq) as (Hseed & Hsize & _).
    split; [exact Hseed | exact Hsize].
Defined.

(** C8 as stated fails for the seed [0]: it differs from [-1], and the
    payload carries no [seed]. *)
Lemma request_payload_seed_zero_omitted :
  eq_int (get seed_zero_config "seed" (VInt (-1))) (-1) = false
  /\ exists endpoint payload_dict,
      request_payload (H := plain_builtins) (py "a cat") seed_zero_config
                      (py "1024x1024") None None
      = Ok (endpoint, payload_dict)
      /\ payload_dict !! py "seed" = None
      /\ payload_dict !! py "size" = Some (VStr (py "1024x1024")).
Proof.
  split; [reflexivity|]. eexists _, _. split; [reflexivity|].
  split; vm_compute; reflexivity.
Qed.

(** ** Worked instances *)

Lemma get_model_config_three_tiers_witness :
  get_model_config sample_getter (py "model1") (py "model1") = VDict plain_config
  /\ get_model_config sample_getter (py "modelX") (py "model1") = VDict plain_config
  /\ get_model_config sample_getter (py "modelX") (py "modelY") = VNone
  /\ assemble sample_getter (py "model2") !! py "seed" = Some (VInt 7)
  /\ assemble sample_getter (py "model2") !! py "name" = None
  /\ get_model_config sample_getter (py "model2") (py "model1")
     = VDict (assemble sample_getter (py "model2")).
Proof.
  destruct (get_model_config_three_tiers sample_getter (py "model1") (py "model1"))
    as (_ & H1 & _).
  destruct (get_model_config_three_tiers sample_getter (py "modelX") (py "model1"))
    as (_ & H2 & _).
  destruct (get_model_config_three_tiers sample_getter (py "modelX") (py "modelY"))
    as (_ & H3 & _).
  destruct (get_model_config_three_tiers sample_getter (py "model2") (py "model1"))
    as (Hentry & H4 & _).
  rewrite H1, H2, H3, H4, !Hentry.
  repeat split; vm_compute; reflexivity.
Defined.

Lemma resolve_image_data_spec_witness :
  resolve_image_data (py "iVBORw" ++ py "0KGgo=") sample_download
  = (Ok (true, py "iVBORw" ++ py "0KGgo="), [])
  /\ resolve_image_data (py "https://ex.com/a.png") sample_download
     = (Ok (true, py "iVBORw0KGgo="), [py "https://ex.com/a.png"])
  /\ resolve_image_data (py "https://ex.com/gone.png") sample_download
     = (Ok (false, py "图片下载失败"), [py "https://ex.com/gone.png"]).
Proof.
  destruct (resolve_image_data_spec sample_download) as (Hb64 & Hurl & _).
  split; [apply Hb64, list_elem_of_here|].
  destruct (Hurl (py "https://ex.com/a.png") eq_refl) as (Hc1 & Hok & _).
  destruct (Hurl (py "https://ex.com/gone.png") eq_refl) as (Hc2 & _ & _ & Hraise).
  split.
  - rewrite (surjective_pairing (resolve_image_data _ _)), Hc1.
    by rewrite (Hok (py "iVBORw0KGgo=") eq_refl).
  - rewrite (surjective_pairing (resolve_image_data _ _)), Hc2.
    by rewrite (Hraise (Exn OtherException (py "timed out")) eq_refl).
Defined.

Lemma recall_attempts_first_success_witness :
  (recall_attempts (H := plain_builtins) sample_send (py "12345") 0).1 = Ok ()
  /\ (run_sent (recall_attempts (H := plain_builtins) sample_send (py "12345") 0).2).*1
     = [py "DELETE_MSG"; py "delete_msg"; py "RECALL_MSG"]
  /\ run_exit (recall_attempts (H := plain_builtins) sample_send (py "12345") 0).2
     = ExitBreak
  /\ run_world (recall_attempts (H := plain_builtins) sample_send (py "12345") 0).2 = 3.
Proof.
  destruct (recall_attempts_first_success (H := plain_builtins) sample_send (py "12345") 0)
    as (Hres & _).
  split; [exact Hres|]. repeat split; vm_compute; reflexivity.
Defined.


Example extract_data_uri :
  extract_from_content (py "data:image/png;base64,QQQQ") = (true, py "QQQQ").
Proof. vm_compute. reflexivity. Qed.

Example extract_url_ignores_case :
  extract_from_content (py "see HTTPS://ex.com/a.PNG?x=1 and https://b.c/d")
  = (true, py "HTTPS://ex.com/a.PNG?x=1").
Proof. vm_compute. reflexivity. Qed.

Example extract_bare_url :
  extract_from_content (py "see <https://b.c/d> ok") = (true, py "https://b.c/d").
Proof. vm_compute. reflexivity. Qed.

Example extract_padded_run :
  extract_from_content (py "img: " ++ long_run ++ py "== done")
  = (true, long_run ++ py "==").
Proof. vm_compute. reflexivity. Qed.

Example extract_longest_of_two_runs :
  extract_from_content (long_run ++ py " " ++ replicate 2000 66%N)
  = (true, replicate 2000 66%N).
Proof. vm_compute. reflexivity. Qed.

Example extract_short_run_rejected :
  extract_from_content (py "img: " ++ replicate 500 65%N ++ py " done")
  = (false, msg_no_image).
Proof. vm_compute. reflexivity. Qed.

Example extract_signed_run_accepted :
  extract_from_content (py "img: " ++ py "/9j/" ++ replicate 300 65%N ++ py " done")
  = (true, py "/9j/" ++ replicate 300 65%N).
Proof. vm_compute. reflexivity. Qed.

Example extract_empty_reply :
  _extract_image_from_response (H := plain_builtins) (chat_response [])
  = Ok (false, msg_no_content).
Proof. vm_compute. reflexivity. Qed.

Example py_decodes_utf8 : py "请a" = [35831%N; 97%N].
Proof. vm_compute. reflexivity. Qed.

Example eq_int_across_types :
  eq_int (VFloat (-1)%float) (-1) = true /\ eq_int (VFloat 0%float) 0 = true
  /\ eq_int (VBool false) 0 = true /\ eq_int (VFloat 1.5%float) (-1) = false.
Proof. vm_compute. auto. Qed.

Example endpoint_strips_slashes :
  exists payload_dict,
    request_payload (H := plain_builtins) (py "a cat") seed_config [] None None
    = Ok (py "https://g.example/v1/chat/completions", payload_dict)
    /\ payload_dict !! py "size" = None.
Proof. eexists. split; vm_compute; reflexivity. Qed.

(** * Further properties *)

(** ** What the extraction returns *)

Lemma cap_ok_suffix s t g g' : t `suffix_of` s -> cap_ok t g g' -> cap_ok s g g'.
Proof.
  intros Hts [->|(s0 & s1 & H0 & H1 & ->)]; [by left|right].
  exists s0, s1. split; [by etrans|done].
Qed.

Lemma cap_ok_trans s g1 g2 g3 : cap_ok s g1 g2 -> cap_ok s g2 g3 -> cap_ok s g1 g3.
Proof. intros H12 [->|H23]; [done|by right]. Qed.

Section Suffix.
Context {R : Type}.

Lemma chars_suffix ps prev (s : pystr) prev' s' :
  chars ps prev s = Some (prev', s') -> s' `suffix_of` s.
Proof.
  revert prev s. induction ps as [|p ps IH]; intros prev s; cbn [chars].
  - by intros [= _ ->].
  - destruct s as [|c s]; [done|]. destruct (p c); [|done].
    intros Hc%IH. by apply suffix_cons_r.
Qed.

Lemma rep_lazy_sound p lo hi prev s (k : option N -> pystr -> option R) (r : R) :
  rep_lazy p lo hi prev s k = Some r ->
  exists x s', s = x ++ s' /\ Forall (fun c => p c = true) x /\ lo <= length x
               /\ k (prev_after prev x) s' = Some r.
Proof.
  revert lo hi prev. induction s as [|c s IH]; intros lo hi prev; cbn [rep_lazy].
  - destruct lo; [|done]. destruct (k prev []) eqn:Hk; [|done].
    intros [= ->]. exists [], []. repeat split; auto; cbn; lia.
  - destruct (match lo with 0 => k prev (c :: s) | S _ => None end) eqn:Hk.
    { intros [= ->]. destruct lo; [|done].
      exists [], (c :: s). repeat split; auto; cbn; lia. }
    destruct (p c && hi_open hi) eqn:Hpc; [|done].
    intros (x & s' & -> & Hx & Hlo & Hk')%IH.
    apply andb_true_iff in Hpc as [Hp _].
    exists (c :: x), s'. rewrite prev_after_cons.
    repeat split; auto; cbn [length]; lia.
Qed.

Lemma mt_suffix (r : regex) : forall prev s g (k : option N -> pystr -> option pystr -> option R) res,
  mt r prev s g k = Some res ->
  exists prev' s' g', k prev' s' g' = Some res /\ s' `suffix_of` s /\ cap_ok s g g'.
Proof.
  induction r as [ps|greedy lo hi p|r IH|r1 IH1 r2 IH2|r1 IH1 r2 IH2|r IH|p|p];
    intros prev s g k res; cbn [mt].
  - destruct (chars ps prev s) as [[prev' s']|] eqn:Hc; [|done].
    intros Hk. exists prev', s', g. split; [done|].
    split; [by eapply chars_suffix | by left].
  - destruct greedy.
    + intros (x & s' & -> & _ & _ & _ & Hk)%rep_greedy_sound.
      exists (prev_after prev x), s', g. split; [done|].
      split; [by apply suffix_app_r | by left].
    + intros (x & s' & -> & _ & _ & Hk)%rep_lazy_sound.
      exists (prev_after prev x), s', g. split; [done|].
      split; [by apply suffix_app_r | by left].
  - destruct (mt r prev s g k) eqn:Hm.
    + intros [= ->]. by apply IH in Hm.
    + intros Hk. exists prev, s, g. split; [done|]. split; [done | by left].
  - destruct (mt r1 prev s g k) eqn:Hm.
    + intros [= ->]. by apply IH1 in Hm.
    + intros Hm2. by apply IH2 in Hm2.
  - intros (prev1 & s1 & g1 & Hm2 & Hs1 & Hg1)%IH1.
    apply IH2 in Hm2 as (prev2 & s2 & g2 & Hk & Hs2 & Hg2).
    exists prev2, s2, g2. split; [done|]. split; [by etrans|].
    eapply cap_ok_trans; [exact Hg1|]. by eapply cap_ok_suffix.
  - intros (prev1 & s1 & g1 & Hk & Hs1 & _)%IH.
    exists prev1, s1, (Some (take (length s - length s1) s)).
    split; [done|]. split; [done|]. right. by exists s, s1.
  - intros Hk. exists prev, s, g. split; [|split; [done|by left]].
    destruct prev as [c|]; [|done]. by destruct (p c).
  - intros Hk. exists prev, s, g. split; [|split; [done|by left]].
    destruct s as [|c s]; [done|]. by destruct (p c).
Qed.
End Suffix.

Lemma take_suffix_piece (s s0 s1 : pystr) :
  s0 `suffix_of` s -> s1 `suffix_of` s0 -> piece_of (take (length s0 - length s1) s0) s.
Proof.
  intros [a ->] [b ->]. exists a, s1.
  rewrite length_app. replace (length b + length s1 - length s1) with (length b) by lia.
  by rewrite take_app_length.
Qed.

Lemma match_at_piece r prev s g len :
  match_at r prev s = Some (g, len) -> piece_of g s.
Proof.
  unfold match_at. intros (prev' & s' & g' & Hk & _ & Hg)%mt_suffix.
  injection Hk as <- _.
  destruct Hg as [->|(s0 & s1 & H0 & H1 & ->)].
  - by exists [], s.
  - by apply take_suffix_piece.
Qed.

Lemma findall_piece r content m : m ∈ findall r content -> piece_of m content.
Proof.
  intros (a & t & len & -> & Hm)%scan_sound.
  apply match_at_piece in Hm as (a' & b & ->).
  exists (a ++ a'), b. by rewrite <- app_assoc.
Qed.

(** X1. A payload the extraction returns is a contiguous piece of the reply
    text: nothing is decoded, joined or rewritten on the way.  When nothing
    is found the message is always the same one. *)
Theorem extract_payload_is_piece (content payload : pystr) :
  (extract_from_content content = (true, payload) -> piece_of payload content)
  /\ (extract_from_content content = (false, payload) -> payload = msg_no_image).
Proof.
  unfold extract_from_content.
  destruct (findall md_pattern content) as [|u us] eqn:Hmd.
  2:{ split; [|done]. intros [= <-]. apply (findall_piece md_pattern). rewrite Hmd. left. }
  destruct (findall data_uri_pattern content) as [|d ds] eqn:Hdu.
  2:{ split; [|done]. intros [= <-]. apply (findall_piece data_uri_pattern). rewrite Hdu. left. }
  destruct (findall b64_pattern content) as [|m ms] eqn:Hb.
  - destruct (findall url_pattern content) as [|x xs] eqn:Hu.
    + destruct (findall any_url_pattern content) as [|y ys] eqn:Ha.
      * split; [done|]. by intros [= <-].
      * split; [|done]. intros [= <-]. apply (findall_piece any_url_pattern).
        rewrite Ha. left.
    + split; [|done]. intros [= <-]. apply (findall_piece url_pattern). rewrite Hu. left.
  - cbv zeta.
    destruct (startswith_any (max_by_len m ms) b64_signatures || (1000 <? length (max_by_len m ms))).
    { split; [|done]. intros [= <-]. apply (findall_piece b64_pattern).
      rewrite Hb. apply max_by_len_in. }
    destruct (findall url_pattern content) as [|x xs] eqn:Hu.
    + destruct (findall any_url_pattern content) as [|y ys] eqn:Ha.
      * split; [done|]. by intros [= <-].
      * split; [|done]. intros [= <-]. apply (findall_piece any_url_pattern).
        rewrite Ha. left.
    + split; [|done]. intros [= <-]. apply (findall_piece url_pattern). rewrite Hu. left.
Qed.

Lemma scan_nil_inv r a t : forall prev,
  scan r 0 prev (a ++ t) = [] -> match_at r (prev_after prev a) t = None.
Proof.
  induction a as [|c a IH]; intros prev Hs.
  - cbn [app] in Hs. change (prev_after prev []) with prev.
    destruct t as [|c t]; cbn [scan] in Hs;
      by destruct (match_at r prev _) as [[g len]|].
  - cbn [app scan] in Hs. rewrite prev_after_cons.
    destruct (match_at r prev (c :: a ++ t)) as [[g len]|]; [done|]. by apply IH.
Qed.

Section Total.
Context {R : Type}.
(** A greedy repetition whose continuation accepts every cursor succeeds as
    soon as one character is available where one is required. *)
Lemma rep_greedy_total (p : N -> bool) lo prev s (k : option N -> pystr -> option R) :
  (forall pv t, is_Some (k pv t)) -> lo <= run_len p s ->
  is_Some (rep_greedy p lo None prev s k).
Proof.
  intros Hk. revert lo prev. induction s as [|c s IH]; intros lo prev Hlo; cbn [rep_greedy].
  - cbn in Hlo. assert (lo = 0) as -> by lia. apply Hk.
  - cbn [run_len] in Hlo. destruct (p c) eqn:Hc; cbn [andb hi_open hi_pred].
    + destruct (IH (pred lo) (Some c)) as [r Hr]; [lia|]. by rewrite Hr.
    + assert (lo = 0) as -> by lia. apply Hk.
Qed.
End Total.

Lemma any_url_match prev scheme c rest :
  scheme = py "http://" \/ scheme = py "https://" -> url_char c = true ->
  is_Some (match_at any_url_pattern prev (scheme ++ c :: rest)).
Proof.
  intros Hscheme Hc. unfold match_at, any_url_pattern, Lit. cbn [mt].
  assert (Htail : forall pv (s0 : pystr) (f : pystr -> pystr -> option (pystr * nat)),
            (forall a b, is_Some (f a b)) ->
            is_Some (rep_greedy url_char 1 None pv (c :: rest)
                       (fun _ s' => f s0 s'))).
  { intros pv s0 f Hf. apply rep_greedy_total; [intros; apply Hf|].
    cbn [run_len]. rewrite Hc. lia. }
  destruct Hscheme as [-> | ->].
  - change (py "http://") with (py "http" ++ py "://").
    rewrite <- app_assoc, chars_eqb_app.
    rewrite rep_greedy_stop by done. rewrite chars_eqb_app.
    apply (Htail _ [] (fun _ s' => Some (default [] (Some (take
             (length (py "http" ++ py "://" ++ c :: rest) - length s')
             (py "http" ++ py "://" ++ c :: rest))),
             length (py "http" ++ py "://" ++ c :: rest) - length s'))).
    by eexists.
  - change (py "https://") with (py "http" ++ 115%N :: py "://").
    rewrite <- app_assoc, chars_eqb_app.
    cbn [app rep_greedy N.eqb Pos.eqb andb hi_open hi_pred pred].
    rewrite rep_greedy_closed, chars_eqb_app.
    destruct (Htail (prev_after (Some 115%N) (py "://")) []
      (fun _ s' => Some (default [] (Some (take
             (length (py "http" ++ 115%N :: py "://" ++ c :: rest) - length s')
             (py "http" ++ 115%N :: py "://" ++ c :: rest))),
             length (py "http" ++ 115%N :: py "://" ++ c :: rest) - length s')))
      as [r Hr]; [by eexists|].
    rewrite Hr. by eexists.
Qed.

(** X2. A reply that contains [http://] or [https://] followed by a
    character a URL may hold never ends in the failure message: whatever
    surrounds it, some strategy returns a payload. *)
Theorem extract_never_misses_url (pre scheme rest : pystr) (c : N) :
  scheme = py "http://" \/ scheme = py "https://" -> url_char c = true ->
  exists payload, extract_from_content (pre ++ scheme ++ c :: rest) = (true, payload).
Proof.
  intros Hscheme Hc.
  assert (Hany : findall any_url_pattern (pre ++ scheme ++ c :: rest) <> []).
  { intros Hnil. apply scan_nil_inv in Hnil.
    destruct (any_url_match (prev_after None pre) scheme c rest Hscheme Hc) as [r Hr].
    congruence. }
  unfold extract_from_content.
  destruct (findall md_pattern _); [|by eexists].
  destruct (findall data_uri_pattern _); [|by eexists].
  destruct (match findall b64_pattern _ with [] => None | m :: ms => _ end); [by eexists|].
  destruct (findall url_pattern _); [|by eexists].
  destruct (findall any_url_pattern _); [done|by eexists].
Qed.

Lemma extract_never_misses_url_witness :
  exists payload,
    extract_from_content (py "(see " ++ py "https://" ++ 101%N :: py "x.com/pic)")
    = (true, payload).
Proof.
  apply (extract_never_misses_url (py "(see ") (py "https://") (py "x.com/pic)") 101%N).
  - right. reflexivity.
  - reflexivity.
Defined.

Lemma occurs_split (needle a b : pystr) :
  occurs needle (a ++ b) = false -> startswith b needle = false.
Proof.
  induction a as [|x a IH]; cbn [app].
  - destruct b; cbn [occurs]; by intros [? _]%orb_false_iff.
  - cbn [occurs]. intros [_ Hno]%orb_false_iff. by apply IH.
Qed.

Lemma md_findall_none (content : pystr) :
  has_md_open content = false -> findall md_pattern content = [].
Proof.
  intros Hno. apply scan_nil. intros a t ->.
  destruct t as [|c t]; [done|].
  apply md_match_no_open. apply has_md_open_split in Hno as [Hc|Hb]; [by left|by right].
Qed.

Lemma data_uri_match prev sub payload post :
  sub <> [] -> Forall (fun c => is_letter c = true) sub ->
  payload <> [] -> Forall (fun c => is_b64_pad c = true) payload ->
  stops is_b64_pad post ->
  exists len,
    match_at data_uri_pattern prev
      (py "data:image/" ++ sub ++ py ";base64," ++ payload ++ post) = Some (payload, len).
Proof.
  intros Hsub Hletters Hpay Hb64 Hstop.
  unfold match_at, data_uri_pattern, Lit. cbn [mt].
  rewrite chars_eqb_app. eexists.
  apply rep_greedy_run; [done| destruct sub; [done|cbn [length]; lia] | |done].
  rewrite chars_eqb_app.
  apply rep_greedy_run; [done| destruct payload; [done|cbn [length]; lia] | |done].
  rewrite length_app.
  replace (length payload + length post - length post) with (length payload) by lia.
  rewrite take_app_length. reflexivity.
Qed.

Lemma data_uri_no_match prev c b tail :
  startswith (c :: b) (py "data:") = false ->
  match_at data_uri_pattern prev (c :: b ++ py "data:image/" ++ tail) = None.
Proof.
  intros Hno. unfold match_at, data_uri_pattern, Lit. cbn [mt].
  assert (Hc : chars (map N.eqb (py "data:image/")) prev
                 (c :: b ++ py "data:image/" ++ tail)
               = (None : option (option N * pystr))); [|by rewrite Hc].
  change (py "data:image/") with [100; 97; 116; 97; 58; 105; 109; 97; 103; 101; 47]%N.
  change (py "data:") with [100; 97; 116; 97; 58]%N in Hno.
  destruct b as [|b1 [|b2 [|b3 [|b4 b]]]]; cbn [app map chars startswith] in *;
    repeat match goal with
           | |- context [N.eqb ?x ?y] =>
             destruct (N.eqb_spec x y); [subst|]; cbn [andb] in *; try done
           end.
Qed.

(** X3. From a reply whose first [data:] opens a data URI of an image, and
    which holds no markdown image, the extraction returns the base64 data
    alone, without the [data:image/...;base64,] header and without what
    follows the data. *)
Theorem data_uri_payload_without_header (pre sub payload post : pystr) :
  let content := pre ++ py "data:image/" ++ sub ++ py ";base64," ++ payload ++ post in
  has_md_open content = false ->
  occurs (py "data:") pre = false ->
  sub <> [] -> Forall (fun c => is_letter c = true) sub ->
  payload <> [] -> Forall (fun c => is_b64_pad c = true) payload ->
  stops is_b64_pad post ->
  extract_from_content content = (true, payload).
Proof.
  intros content Hmd Hpre Hsub Hletters Hpay Hb64 Hstop.
  assert (Hdata : head (findall data_uri_pattern content) = Some payload).
  { subst content. unfold findall. rewrite scan_no_match.
    - destruct (data_uri_match (prev_after None pre) sub payload post) as [len Hm];
        try done.
      change (py "data:image/") with (100%N :: py "ata:image/") in *. cbn [app] in *.
      by erewrite scan_match.
    - intros a c b ->. apply data_uri_no_match.
      by apply (occurs_split _ a (c :: b)). }
  rewrite extract_first_match. unfold strategies. cbn [first_match].
  unfold strategy_md. rewrite (md_findall_none content Hmd). cbn [head].
  unfold strategy_data_uri. by rewrite Hdata.
Qed.

Lemma data_uri_payload_without_header_witness :
  extract_from_content
    (py "here: " ++ py "data:image/" ++ py "png" ++ py ";base64," ++ py "iVBORw0KGgo="
     ++ py " (done)")
  = (true, py "iVBORw0KGgo=").
Proof.
  apply (data_uri_payload_without_header (py "here: ") (py "png") (py "iVBORw0KGgo=")
           (py " (done)")).
  - vm_compute. reflexivity.
  - vm_compute. reflexivity.
  - discriminate.
  - repeat constructor.
  - discriminate.
  - repeat constructor.
  - reflexivity.
Defined.

(** ** Replies of other shapes *)

Section ResponseShapes.
Context `{Builtins}.

(** X4. How [_extract_image_from_response] treats replies that are not of
    the standard shape.  Falsy [choices] and [choices] that cannot be
    indexed give the no-content result; of a list only the first choice is
    read; a content that is truthy and not a string raises [TypeError]; a
    reply, a first choice or a message that is not a dict raises
    [AttributeError], which the function does not catch. *)
Theorem extract_response_edge_cases :
  (* no usable choices: absent, empty list, empty string, zero, None ... *)
  (forall d : dict,
     truthy (get d "choices" (VList [])) = false ->
     _extract_image_from_response (VDict d) = Ok (false, msg_no_content))
  (* choices that cannot be indexed: the error is swallowed *)
  /\ (forall (d : dict) c,
        get d "choices" (VList []) = c -> truthy c = true ->
        match c with VList _ | VStr _ => False | _ => True end ->
        _extract_image_from_response (VDict d) = Ok (false, msg_no_content))
  (* only the first choice is read; a missing message or content is empty *)
  /\ (forall (d first : dict) rest,
        get d "choices" (VList []) = VList (VDict first :: rest) ->
        forall m : dict, get first "message" (VDict ∅) = VDict m ->
        _extract_image_from_response (VDict d)
        = match get m "content" (VStr []) with
          | VStr (c :: s) => Ok (extract_from_content (c :: s))
          | v => if truthy v then raise TypeError v else Ok (false, msg_no_content)
          end)
  (* a reply that is not an object, or whose first choice or message is
     not an object, raises AttributeError *)
  /\ (forall v, is_dict v = false ->
        _extract_image_from_response v = raise AttributeError v)
  /\ (forall (d : dict) first rest,
        get d "choices" (VList []) = VList (first :: rest) -> is_dict first = false ->
        _extract_image_from_response (VDict d) = raise AttributeError first)
  /\ (forall (d first : dict) rest msg,
        get d "choices" (VList []) = VList (VDict first :: rest) ->
        get first "message" (VDict ∅) = msg -> is_dict msg = false ->
        _extract_image_from_response (VDict d) = raise AttributeError msg).
Proof.
  unfold _extract_image_from_response, response_content.
  repeat split.
  - intros d Hc. cbn [py_get bind]. by rewrite Hc.
  - intros d c Hc Ht Hshape. cbn [py_get bind]. rewrite Hc, Ht.
    by destruct c.
  - intros d first rest Hc m Hm. cbn [py_get bind]. rewrite Hc.
    cbn [truthy index0 bind py_get]. rewrite Hm. cbn [bind py_get try_lookup].
    destruct (get m "content" (VStr [])) as [|b|z|f|s|l|d'] eqn:Hcont; cbn [truthy negb].
    + done.
    + by destruct b.
    + by destruct (z =? 0)%Z.
    + by destruct (PrimFloat.eqb f _).
    + by destruct s.
    + by destruct l.
    + by destruct (bool_decide (d' ≠ ∅)).
  - intros v Hv. by destruct v.
  - intros d first rest Hc Hf. cbn [py_get bind]. rewrite Hc.
    cbn [truthy index0 bind]. by destruct first.
  - intros d first rest msg Hc Hm Hd. cbn [py_get bind]. rewrite Hc.
    cbn [truthy index0 bind py_get]. rewrite Hm. by destruct msg.
Qed.


End ResponseShapes.


(** ** Cleaning a text for the log *)

Lemma clean_match_short prev s :
  run_len is_b64 s < 200 -> match_at clean_pattern prev s = None.
Proof.
  intros Hlt. unfold match_at, clean_pattern. cbn [mt]. by apply rep_greedy_short.
Qed.

Lemma clean_match_long prev s :
  200 <= run_len is_b64 s -> is_Some (match_at clean_pattern prev s).
Proof.
  intros Hge. unfold match_at, clean_pattern. cbn [mt].
  apply rep_greedy_total; [|done].
  intros pv t.
  match goal with |- is_Some (rep_greedy _ _ _ _ _ ?K) =>
    destruct (K pv t) as [r0|] eqn:HK; [|done];
    destruct (rep_greedy_fallback (N.eqb 61) (Some 2) pv t K r0 HK) as [r Hr]
  end.
  by exists r.
Qed.

Lemma longest_run_app_ends p a b :
  ends_ok p a ->
  longest_run p (a ++ b) = Nat.max (longest_run p a) (longest_run p b).
Proof.
  induction a as [|c a IH]; intros Hend; [done|].
  cbn [app longest_run].
  rewrite (app_comm_cons a b c), (run_len_app_ends p (c :: a) b) by done.
  destruct a as [|d a].
  - cbn [app longest_run]. lia.
  - rewrite IH by exact Hend. lia.
Qed.

Lemma longest_run_cons_le p c s : longest_run p s <= longest_run p (c :: s).
Proof. cbn [longest_run]. lia. Qed.

Lemma run_len_le_longest p s : run_len p s <= longest_run p s.
Proof. destruct s; cbn [longest_run]; [cbn|]; lia. Qed.

Lemma placeholder_facts :
  ends_ok is_b64 BASE64_PLACEHOLDER /\ longest_run is_b64 BASE64_PLACEHOLDER = 6
  /\ run_len is_b64 BASE64_PLACEHOLDER = 0.
Proof. by vm_compute. Qed.

Lemma run_len_placeholder_app s : run_len is_b64 (BASE64_PLACEHOLDER ++ s) = 0.
Proof. reflexivity. Qed.

(** What the scan leaves: no run of 200, and at a scan position no longer a
    head run than the input has. *)
Lemma sub_scan_clean s : forall n prev,
  longest_run is_b64 (sub_scan clean_pattern BASE64_PLACEHOLDER n prev s) < 200
  /\ (n = 0 -> run_len is_b64 (sub_scan clean_pattern BASE64_PLACEHOLDER n prev s)
              <= run_len is_b64 s).
Proof.
  destruct placeholder_facts as (Hpe & Hpl & Hpr).
  induction s as [|c s IH]; intros n prev.
  - destruct n; cbn [sub_scan]; [|cbn; lia].
    rewrite clean_match_short by (cbn; lia). cbn. lia.
  - destruct n as [|n]; cbn [sub_scan].
    2:{ split; [apply IH | discriminate]. }
    destruct (match_at clean_pattern prev (c :: s)) as [[g len]|] eqn:Hm.
    + assert (Hrepl : forall out, longest_run is_b64 out < 200 ->
                longest_run is_b64 (BASE64_PLACEHOLDER ++ out) < 200
                /\ (0 = 0 -> run_len is_b64 (BASE64_PLACEHOLDER ++ out)
                             <= run_len is_b64 (c :: s))).
      { intros out Hout. rewrite longest_run_app_ends by done.
        rewrite run_len_placeholder_app. split; lia. }
      destruct len as [|len]; [exfalso|apply Hrepl, IH].
      unfold match_at, clean_pattern in Hm. cbn [mt] in Hm.
      apply rep_greedy_sound in Hm as (x & s1 & Hx & _ & Hlen & _ & Hm).
      apply rep_greedy_sound in Hm as (y & s2 & -> & _ & _ & _ & Hm).
      injection Hm as _ Hm. apply (f_equal length) in Hx.
      rewrite !length_app in Hx. cbn [length] in Hx. lia.
    + destruct (IH 0 (Some c)) as [Hl Hr]. specialize (Hr eq_refl).
      assert (Hshort : run_len is_b64 (c :: s) < 200).
      { destruct (Nat.le_gt_cases 200 (run_len is_b64 (c :: s))) as [Hge|]; [|done].
        destruct (clean_match_long prev (c :: s) Hge) as [r Hr']. congruence. }
      split; [|intros _].
      * cbn [longest_run]. cbn [run_len] in Hshort |- *.
        destruct (is_b64 c); lia.
      * cbn [run_len]. destruct (is_b64 c); lia.
Qed.

Lemma sub_scan_unchanged s : forall prev,
  longest_run is_b64 s < 200 ->
  sub_scan clean_pattern BASE64_PLACEHOLDER 0 prev s = s.
Proof.
  induction s as [|c s IH]; intros prev Hlt; cbn [sub_scan].
  - by rewrite clean_match_short by (cbn; lia).
  - rewrite clean_match_short.
    + rewrite IH; [done|]. pose proof (longest_run_cons_le is_b64 c s). lia.
    + pose proof (run_len_le_longest is_b64 (c :: s)). lia.
Qed.

(** X6. [_clean_log_content] leaves no run of 200 or more characters of the
    base64 alphabet; a text without such a run is returned unchanged; and
    cleaning a cleaned text changes nothing. *)
Theorem clean_log_content_no_long_run (content : pystr) :
  longest_run is_b64 (_clean_log_content content) < 200
  /\ (longest_run is_b64 content < 200 -> _clean_log_content content = content)
  /\ _clean_log_content (_clean_log_content content) = _clean_log_content content.
Proof.
  assert (H1 : longest_run is_b64 (_clean_log_content content) < 200)
    by apply sub_scan_clean.
  split; [done|]. split.
  - apply sub_scan_unchanged.
  - by apply sub_scan_unchanged.
Qed.

Example clean_log_example :
  _clean_log_content (py "a " ++ replicate 300 65%N ++ py "== b")
  = py "a [BASE64_DATA...] b".
Proof. vm_compute. reflexivity. Qed.

(** ** The verbose log *)

Section DebugLogProperties.
Context `{Builtins}.

Lemma payload_messages_lookup (payload : dict) (seed : value) (b : bool) (size : pystr) k v :
  k = py "messages" ->
  (match size with
   | [] => (if b then <[py "seed" := seed]> (<[k := v]> payload) else <[k := v]> payload)
   | _ => <[py "size" := VStr size]>
            (if b then <[py "seed" := seed]> (<[k := v]> payload) else <[k := v]> payload)
   end) !! k = Some v.
Proof.
  intros ->. destruct size, b;
    repeat (rewrite lookup_insert_ne by (by vm_compute)); apply lookup_insert_eq.
Qed.

Lemma payload_messages_override (payload : dict) (seed : value) (b : bool) (size : pystr) v1 v2 w :
  <[py "messages" := w]>
    (match size with
     | [] => (if b then <[py "seed" := seed]> (<[py "messages" := v1]> payload)
              else <[py "messages" := v1]> payload)
     | _ => <[py "size" := VStr size]>
              (if b then <[py "seed" := seed]> (<[py "messages" := v1]> payload)
               else <[py "messages" := v1]> payload)
     end)
  = <[py "messages" := w]>
    (match size with
     | [] => (if b then <[py "seed" := seed]> (<[py "messages" := v2]> payload)
              else <[py "messages" := v2]> payload)
     | _ => <[py "size" := VStr size]>
              (if b then <[py "seed" := seed]> (<[py "messages" := v2]> payload)
               else <[py "messages" := v2]> payload)
     end).
Proof.
  apply map_eq. intros k.
  destruct (decide (k = py "messages")) as [->|Hk].
  - by rewrite !lookup_insert_eq.
  - rewrite !(lookup_insert_ne _ (py "messages") k) by done.
    destruct size, b; rewrite ?lookup_insert;
      repeat case_decide; try done; by rewrite !lookup_insert_ne.
Qed.

Lemma get_insert_eq (d : dict) (k : string) (v dflt : value) :
  get (<[py k := v]> d) k dflt = v.
Proof. unfold get. by rewrite lookup_insert_eq. Qed.

Lemma safe_message_text (role : string) (text : pystr) :
  safe_message (message role (VStr text)) = Ok (message role (VStr text)).
Proof.
  unfold safe_message, message. cbn [py_get]. unfold get.
  rewrite lookup_insert_ne by (by vm_compute). by rewrite lookup_insert_eq.
Qed.

Lemma safe_message_image (role : string) (uri text : pystr) :
  safe_message
    (message role
       (VList [VDict (<[py "type" := VStr (py "image_url")]>
                      (<[py "image_url" := VDict (<[py "url" := VStr uri]> ∅)]> ∅));
               VDict (<[py "type" := VStr (py "text")]>
                      (<[py "text" := VStr text]> ∅))]))
  = Ok (message role
          (VList [redacted_image_part;
                  VDict (<[py "type" := VStr (py "text")]>
                         (<[py "text" := VStr text]> ∅))])).
Proof.
  unfold safe_message, message. cbn [py_get]. unfold get at 1.
  rewrite lookup_insert_ne by (by vm_compute). rewrite lookup_insert_eq.
  cbn [default from_option id bind map_result safe_part py_get].
  rewrite !get_insert_eq. cbn [bind].
  change (eq_str (VStr (py "image_url")) "image_url") with true.
  change (eq_str (VStr (py "text")) "image_url") with false.
  cbn [bind getitem]. by rewrite lookup_insert_eq.
Qed.

(** The payload of an image-to-image request, as logged: the image part is
    the placeholder whatever the image was. *)
Lemma safe_payload_image (base : dict) (seed : value) (b : bool) (size : pystr)
    (sys_text uri text : pystr) :
  safe_payload
    (match size with
     | [] =>
       (if b then <[py "seed" := seed]> (<[py "messages" := VList
          [message "system" (VStr sys_text);
           message "user"
             (VList [VDict (<[py "type" := VStr (py "image_url")]>
                            (<[py "image_url" := VDict (<[py "url" := VStr uri]> ∅)]> ∅));
                     VDict (<[py "type" := VStr (py "text")]>
                            (<[py "text" := VStr text]> ∅))])]]> base)
        else <[py "messages" := VList
          [message "system" (VStr sys_text);
           message "user"
             (VList [VDict (<[py "type" := VStr (py "image_url")]>
                            (<[py "image_url" := VDict (<[py "url" := VStr uri]> ∅)]> ∅));
                     VDict (<[py "type" := VStr (py "text")]>
                            (<[py "text" := VStr text]> ∅))])]]> base)
     | _ => <[py "size" := VStr size]>
       (if b then <[py "seed" := seed]> (<[py "messages" := VList
          [message "system" (VStr sys_text);
           message "user"
             (VList [VDict (<[py "type" := VStr (py "image_url")]>
                            (<[py "image_url" := VDict (<[py "url" := VStr uri]> ∅)]> ∅));
                     VDict (<[py "type" := VStr (py "text")]>
                            (<[py "text" := VStr text]> ∅))])]]> base)
        else <[py "messages" := VList
          [message "system" (VStr sys_text);
           message "user"
             (VList [VDict (<[py "type" := VStr (py "image_url")]>
                            (<[py "image_url" := VDict (<[py "url" := VStr uri]> ∅)]> ∅));
                     VDict (<[py "type" := VStr (py "text")]>
                            (<[py "text" := VStr text]> ∅))])]]> base)
     end)
  = Ok (<[py "messages" := VList
          [message "system" (VStr sys_text);
           message "user"
             (VList [redacted_image_part;
                     VDict (<[py "type" := VStr (py "text")]>
                            (<[py "text" := VStr text]> ∅))])]]>
        (match size with
         | [] => (if b then <[py "seed" := seed]> (<[py "messages" := VNone]> base)
                  else <[py "messages" := VNone]> base)
         | _ => <[py "size" := VStr size]>
                  (if b then <[py "seed" := seed]> (<[py "messages" := VNone]> base)
                   else <[py "messages" := VNone]> base)
         end)).
Proof.
  unfold safe_payload. rewrite payload_messages_lookup by done.
  cbn [py_iter bind map_result].
  rewrite safe_message_text, safe_message_image. cbn [bind].
  f_equal. apply payload_messages_override.
Qed.


(** X8. The headers printed by the verbose log do not depend on the API
    key beyond whether it starts with [Bearer ]: the logged Authorization is
    [Bearer ***] or [***]. *)
Theorem debug_log_masks_api_key (config1 config2 : dict) :
  let key1 := fmt (get config1 "api_key" (VStr [])) in
  let key2 := fmt (get config2 "api_key" (VStr [])) in
  startswith key1 (py "Bearer ") = startswith key2 (py "Bearer ") ->
  exists logged,
    safe_headers (request_headers config1) = Ok logged
    /\ safe_headers (request_headers config2) = Ok logged
    /\ (logged !! py "Authorization" = Some (VStr (py "Bearer ***"))
        \/ logged !! py "Authorization" = Some (VStr (py "***"))).
Proof.
  intros key1 key2 Hsame. unfold safe_headers, request_headers.
  rewrite !lookup_insert_eq. fold key1 key2. rewrite Hsame.
  destruct (startswith key2 (py "Bearer ")); eexists;
    (split; [reflexivity|]); rewrite !insert_insert_eq, lookup_insert_eq; (split; [done|]);
    [by left | by right].
Qed.

End DebugLogProperties.


Lemma debug_log_masks_api_key_witness :
  exists logged,
    safe_headers (H := plain_builtins)
      (request_headers (H := plain_builtins) (bearer_config "sk-one")) = Ok logged
    /\ safe_headers (H := plain_builtins)
         (request_headers (H := plain_builtins) (bearer_config "sk-two")) = Ok logged
    /\ (logged !! py "Authorization" = Some (VStr (py "Bearer ***"))
        \/ logged !! py "Authorization" = Some (VStr (py "***"))).
Proof.
  apply (debug_log_masks_api_key (H := plain_builtins) (bearer_config "sk-one")
           (bearer_config "sk-two")).
  vm_compute. reflexivity.
Defined.

(** ** The endpoint *)

Lemma get_insert_ne (d : dict) (k k' : string) (v dflt : value) :
  py k <> py k' -> get (<[py k := v]> d) k' dflt = get d k' dflt.
Proof. intros Hne. unfold get. by rewrite lookup_insert_ne. Qed.

Section Endpoint.
Context `{Builtins}.

Lemma lstrip_slash_replicate (k : nat) (s : pystr) :
  lstrip_slash (replicate k 47%N ++ s) = lstrip_slash s.
Proof. induction k as [|k IH]; [done|]. cbn [replicate app lstrip_slash]. exact IH. Qed.

Lemma rev_replicate (k : nat) (c : N) : rev (replicate k c) = replicate k c.
Proof.
  induction k as [|k IH]; [done|]. cbn [replicate rev]. rewrite IH.
  clear IH. induction k as [|k IH]; [done|]. cbn [replicate app]. by rewrite IH.
Qed.

Lemma rstrip_slash_replicate (u : pystr) (k : nat) :
  rstrip_slash (u ++ replicate k 47%N) = rstrip_slash u.
Proof.
  unfold rstrip_slash. by rewrite rev_app_distr, rev_replicate, lstrip_slash_replicate.
Qed.

Lemma lstrip_slash_head (s : pystr) (c : N) (t : pystr) :
  lstrip_slash s = c :: t -> c <> 47%N.
Proof.
  induction s as [|a s IH]; [done|]. cbn [lstrip_slash].
  destruct (N.eqb_spec a 47); [exact IH|]. congruence.
Qed.

Lemma rstrip_slash_ends (u : pystr) : ends_ok (N.eqb 47) (rstrip_slash u).
Proof.
  unfold ends_ok, rstrip_slash.
  destruct (lstrip_slash (rev u)) as [|c t] eqn:Hs; [done|].
  apply lstrip_slash_head in Hs.
  cbn [rev]. rewrite last_snoc. apply N.eqb_neq. congruence.
Qed.

Lemma lstrip_slash_split (s : pystr) : exists j, s = replicate j 47%N ++ lstrip_slash s.
Proof.
  induction s as [|a s [j IH]]; [by exists 0|]. cbn [lstrip_slash].
  destruct (N.eqb_spec a 47) as [->|]; [|by exists 0].
  exists (S j). cbn [replicate app]. by rewrite <- IH.
Qed.

Lemma rstrip_slash_split (u : pystr) : exists j, u = rstrip_slash u ++ replicate j 47%N.
Proof.
  unfold rstrip_slash. destruct (lstrip_slash_split (rev u)) as [j Hj].
  exists j. rewrite <- (rev_involutive u) at 1. rewrite Hj at 1.
  by rewrite rev_app_distr, rev_replicate.
Qed.

Lemma ok_fst_inv {A B : Type} (a a' : A) (b b' : B) :
  Ok (a, b) = Ok (a', b') -> a = a'.
Proof. congruence. Qed.

(** X9. Slashes at the end of [base_url] do not reach the request: the
    endpoint and the payload are the same with and without them, and the
    endpoint is [/chat/completions] after the [base_url] without its
    trailing slashes. *)
Theorem request_endpoint_ignores_trailing_slashes (prompt : pystr) (model_config : dict)
    (u : pystr) (k : nat) (size : pystr) (strength : option float)
    (input_image_base64 : option pystr) :
  request_payload prompt (<[py "base_url" := VStr (u ++ replicate k 47%N)]> model_config)
                  size strength input_image_base64
  = request_payload prompt (<[py "base_url" := VStr u]> model_config)
                    size strength input_image_base64
  /\ (forall endpoint payload,
        request_payload prompt (<[py "base_url" := VStr u]> model_config)
                        size strength input_image_base64 = Ok (endpoint, payload) ->
        exists root, endpoint = root ++ py "/chat/completions"
                     /\ ends_ok (N.eqb 47) root
                     /\ exists j, u = root ++ replicate j 47%N).
Proof.
  assert (Hk : forall k', py "base_url" <> py k' ->
               forall v dflt, get (<[py "base_url" := v]> model_config) k' dflt
                              = get model_config k' dflt).
  { intros k' Hne v dflt. by apply get_insert_ne. }
  assert (H1 : py "base_url" <> py "model") by (vm_compute; discriminate).
  assert (H2 : py "base_url" <> py "custom_prompt_add") by (vm_compute; discriminate).
  assert (H3 : py "base_url" <> py "negative_prompt_add") by (vm_compute; discriminate).
  assert (H4 : py "base_url" <> py "seed") by (vm_compute; discriminate).
  split.
  - unfold request_payload. rewrite !get_insert_eq, !Hk by done.
    by rewrite rstrip_slash_replicate.
  - intros endpoint payload. unfold request_payload.
    rewrite !get_insert_eq, !Hk by done. cbn [bind].
    destruct (get model_config "custom_prompt_add" (VStr [])); cbn [bind raise];
      try discriminate.
    intros Heq%ok_fst_inv. exists (rstrip_slash u). split; [done|].
    split; [apply rstrip_slash_ends|apply rstrip_slash_split].
Qed.

End Endpoint.

(** ** The recall task *)

Section RecallTaskProperties.
Context `{Builtins} {W : Type}.
Variable unicode_isdigit : N -> bool.
Variable send_command_fn : W -> pystr -> pystr -> send_outcome * W.

Lemma find_target_spec bot_id messages :
  match find_target_message_id unicode_isdigit bot_id messages with
  | Some mid =>
    exists pre msg post,
      messages = pre ++ msg :: post /\ recallable unicode_isdigit bot_id msg
      /\ mid = fmt (msg_message_id msg) /\ mid <> []
      /\ Forall (fun m => ~ recallable unicode_isdigit bot_id m) pre
  | None => Forall (fun m => ~ recallable unicode_isdigit bot_id m) messages
  end.
Proof.
  induction messages as [|msg rest IH]; cbn [find_target_message_id]; [constructor|].
  assert (Hskip : ~ recallable unicode_isdigit bot_id msg ->
    match find_target_message_id unicode_isdigit bot_id rest with
    | Some mid =>
      exists pre m post,
        msg :: rest = pre ++ m :: post /\ recallable unicode_isdigit bot_id m
        /\ mid = fmt (msg_message_id m) /\ mid <> []
        /\ Forall (fun m => ~ recallable unicode_isdigit bot_id m) pre
    | None => Forall (fun m => ~ recallable unicode_isdigit bot_id m) (msg :: rest)
    end).
  { intros Hno. destruct (find_target_message_id unicode_isdigit bot_id rest) as [mid|].
    - destruct IH as (pre & m & post & -> & Hm & Hmid & Hne & Hpre).
      exists (msg :: pre), m, post. do 4 (split; [done|]). by constructor.
    - by constructor. }
  unfold str_eqb. case_bool_decide as Hid.
  - destruct (str_isdigit unicode_isdigit (fmt (msg_message_id msg))) eqn:Hd.
    + exists [], msg, rest. do 3 (split; [done|]). split; [|constructor].
      intros Hnil. rewrite Hnil in Hd. done.
    + apply Hskip. intros [_ Hd']. congruence.
  - apply Hskip. by intros [Hid' _].
Qed.

Lemma recall_attempts_ok (mid : pystr) (w : W) :
  (recall_attempts send_command_fn mid w).1 = Ok ().
Proof. unfold recall_attempts. by destruct (run_exit _). Qed.


End RecallTaskProperties.

(** ** Stripping, splitting and joining *)

Lemma elem_of_rev_list {A} (x : A) (l : list A) : x ∈ rev l <-> x ∈ l.
Proof. rewrite !list_elem_of_In. symmetry. apply in_rev. Qed.

Lemma py_lstrip_spaces (ws s : pystr) :
  Forall (fun c => is_space c = true) ws -> py_lstrip (ws ++ s) = py_lstrip s.
Proof. induction 1 as [|c ws Hc _ IH]; [done|]. cbn. by rewrite Hc. Qed.

Lemma py_lstrip_app (s t : pystr) :
  py_lstrip (s ++ t) = if forallb is_space s then py_lstrip t else py_lstrip s ++ t.
Proof.
  induction s as [|c s IH]; [done|]. cbn. destruct (is_space c); [exact IH|done].
Qed.

Lemma py_lstrip_all_spaces (s : pystr) : forallb is_space s = true -> py_lstrip s = [].
Proof. induction s as [|c s IH]; [done|]. cbn. destruct (is_space c); [exact IH|done]. Qed.

Lemma py_strip_spaces (ws1 s ws2 : pystr) :
  Forall (fun c => is_space c = true) ws1 -> Forall (fun c => is_space c = true) ws2 ->
  py_strip (ws1 ++ s ++ ws2) = py_strip s.
Proof.
  intros H1 H2. unfold py_strip. rewrite py_lstrip_spaces by done.
  rewrite py_lstrip_app. destruct (forallb is_space s) eqn:Hs.
  - rewrite (py_lstrip_all_spaces s Hs).
    rewrite <- (app_nil_r ws2), py_lstrip_spaces by done. done.
  - rewrite rev_app_distr, py_lstrip_spaces; [done|].
    apply Forall_forall. intros c Hc. apply (proj1 (elem_of_rev_list _ _)) in Hc. rewrite Forall_forall in H2. by apply H2.
Qed.

Lemma py_lstrip_suffix (s : pystr) : py_lstrip s `suffix_of` s.
Proof.
  induction s as [|c s IH]; [done|]. cbn. destruct (is_space c); [|done].
  by apply suffix_cons_r.
Qed.

Lemma py_strip_elem (c : N) (s : pystr) : c ∈ py_strip s -> c ∈ s.
Proof.
  unfold py_strip. intros Hc. apply (proj1 (elem_of_rev_list _ _)) in Hc.
  destruct (py_lstrip_suffix (rev (py_lstrip s))) as [a Ha].
  assert (Hc' : c ∈ rev (py_lstrip s)) by (rewrite Ha; set_solver).
  apply (proj1 (elem_of_rev_list _ _)) in Hc'. destruct (py_lstrip_suffix s) as [b Hb].
  rewrite Hb. set_solver.
Qed.

Lemma py_split_no_sep (sep : N) (s : pystr) : sep ∉ s -> py_split sep s = [s].
Proof.
  induction s as [|c s IH]; [done|]. intros Hs.
  apply not_elem_of_cons in Hs as [Hne Hs]. cbn.
  destruct (N.eqb_spec c sep); [congruence|]. by rewrite IH.
Qed.

Lemma py_lstrip_idem (s : pystr) : py_lstrip (py_lstrip s) = py_lstrip s.
Proof.
  induction s as [|c s IH]; [done|]. cbn [py_lstrip].
  destruct (is_space c) eqn:Hc; [exact IH|]. cbn [py_lstrip]. by rewrite Hc.
Qed.

Lemma py_lstrip_head (s : pystr) (c : N) (t : pystr) :
  py_lstrip s = c :: t -> is_space c = false.
Proof.
  induction s as [|a s IH]; [done|]. cbn [py_lstrip].
  destruct (is_space a) eqn:Ha; [exact IH|]. congruence.
Qed.

Lemma py_lstrip_nil_inv (s : pystr) : py_lstrip s = [] -> forallb is_space s = true.
Proof.
  induction s as [|a s IH]; [done|]. cbn [py_lstrip forallb].
  destruct (is_space a); [exact IH|done].
Qed.

Lemma py_lstrip_snoc (x : pystr) (c : N) :
  is_space c = false -> py_lstrip (x ++ [c]) = py_lstrip x ++ [c].
Proof.
  intros Hc. rewrite py_lstrip_app. destruct (forallb is_space x) eqn:Hx; [|done].
  rewrite (py_lstrip_all_spaces x Hx). cbn [py_lstrip app]. by rewrite Hc.
Qed.

Lemma py_strip_shape (s : pystr) :
  py_strip s = []
  \/ exists c r, is_space c = false /\ py_lstrip r = r /\ py_strip s = c :: rev r.
Proof.
  unfold py_strip. destruct (py_lstrip s) as [|c t] eqn:Ht; [by left|].
  right. pose proof (py_lstrip_head _ _ _ Ht) as Hc.
  exists c, (py_lstrip (rev t)). split; [done|]. split; [apply py_lstrip_idem|].
  cbn [rev]. rewrite py_lstrip_snoc by done. rewrite rev_app_distr. done.
Qed.

Lemma py_strip_idem (s : pystr) : py_strip (py_strip s) = py_strip s.
Proof.
  destruct (py_strip_shape s) as [->|(c & r & Hc & Hr & ->)]; [done|].
  unfold py_strip. cbn [py_lstrip]. rewrite Hc. cbn [rev]. rewrite rev_involutive.
  rewrite py_lstrip_snoc by done. rewrite Hr. rewrite rev_app_distr. done.
Qed.

Lemma py_strip_nil_inv (s : pystr) : py_strip s = [] -> forallb is_space s = true.
Proof.
  unfold py_strip. intros Hs.
  assert (Hr : py_lstrip (rev (py_lstrip s)) = []).
  { rewrite <- (rev_involutive (py_lstrip (rev (py_lstrip s)))), Hs. done. }
  apply py_lstrip_nil_inv in Hr.
  destruct (py_lstrip s) as [|c t] eqn:Ht; [by apply py_lstrip_nil_inv|].
  pose proof (py_lstrip_head _ _ _ Ht) as Hc.
  rewrite forallb_forall in Hr. rewrite (Hr c) in Hc; [done|].
  apply in_rev. rewrite rev_involutive. by left.
Qed.

Lemma py_strip_space_cons (s : pystr) : py_strip (32%N :: s) = py_strip s.
Proof.
  pose proof (py_strip_spaces [32%N] s []) as Hs. rewrite app_nil_r in Hs.
  apply Hs; repeat constructor.
Qed.


Lemma py_split_not_nil (sep : N) (s : pystr) : py_split sep s <> [].
Proof.
  destruct s as [|c s]; [done|]. cbn [py_split].
  destruct (c =? sep)%N; [done|]. by destruct (py_split sep s).
Qed.

Lemma py_split_app (sep : N) (x rest : pystr) :
  sep ∉ x -> py_split sep (x ++ sep :: rest) = x :: py_split sep rest.
Proof.
  induction x as [|c x IH]; intros Hx.
  - cbn [app py_split]. by rewrite N.eqb_refl.
  - apply not_elem_of_cons in Hx as [Hne Hx]. cbn [app py_split].
    destruct (N.eqb_spec c sep); [congruence|]. by rewrite IH.
Qed.

Lemma py_split_elem (sep : N) (s piece : pystr) :
  piece ∈ py_split sep s -> sep ∉ piece.
Proof.
  revert piece. induction s as [|c s IH]; intros piece.
  - cbn [py_split]. intros Hp%list_elem_of_singleton. subst piece. apply not_elem_of_nil.
  - cbn [py_split]. destruct (N.eqb_spec c sep) as [->|Hne].
    + intros [->|Hin]%elem_of_cons; [apply not_elem_of_nil|by apply IH].
    + destruct (py_split sep s) as [|h t] eqn:Hs.
      * intros Hp%list_elem_of_singleton. subst piece.
        apply not_elem_of_cons. split; [congruence|apply not_elem_of_nil].
      * intros [->|Hin]%elem_of_cons.
        -- apply not_elem_of_cons. split; [done|]. apply IH. by left.
        -- apply IH. by right.
Qed.

Lemma py_split_join (u : list pystr) (x : pystr) :
  Forall (fun k => 44%N ∉ k) (x :: u) ->
  py_split 44 (py_join (py ", ") (x :: u)) = x :: map (cons 32%N) u.
Proof.
  revert x. induction u as [|y u IH]; intros x Hx.
  - cbn [py_join map]. apply py_split_no_sep. by inversion Hx.
  - change (py_join (py ", ") (x :: y :: u))
      with (x ++ py ", " ++ py_join (py ", ") (y :: u)).
    change (py ", ") with [44%N; 32%N] at 1. cbn [app].
    inversion Hx as [|? ? Hx1 Hx2]; subst.
    rewrite py_split_app by done. f_equal.
    cbn [py_split]. change (32 =? 44)%N with false. cbv iota.
    rewrite IH by done. done.
Qed.

Lemma py_strip_fixed (s : pystr) :
  stops is_space s -> ends_ok is_space s -> py_strip s = s.
Proof.
  intros Hhead Hlast. unfold py_strip.
  assert (Hl : py_lstrip s = s).
  { destruct s as [|c s]; [done|]. cbn in Hhead. cbn [py_lstrip]. by rewrite Hhead. }
  rewrite Hl.
  destruct s as [|c s _] using rev_ind; [done|].
  unfold ends_ok in Hlast. rewrite last_snoc in Hlast.
  rewrite rev_app_distr. cbn [rev app py_lstrip]. rewrite Hlast.
  cbn [rev]. by rewrite rev_involutive.
Qed.

Lemma py_join_cons (sep x : pystr) (l : list pystr) :
  py_join sep (x :: l)
  = x ++ match l with [] => [] | _ => sep ++ py_join sep l end.
Proof. destruct l; cbn [py_join]; [by rewrite app_nil_r|done]. Qed.

Lemma not_elem_of_forallb (c : N) (s : pystr) :
  forallb (fun x => negb (x =? c)%N) s = true -> c ∉ s.
Proof.
  intros Hs Hc. rewrite forallb_forall in Hs.
  apply list_elem_of_In, Hs in Hc. by rewrite N.eqb_refl in Hc.
Qed.

(** ** Times of day *)

Section TimeProperties.
Variable py_int : pystr -> option Z.

(** X11. [to_minutes] gives 0 for a text without a colon, ignores white
    space around the text, and for [HH:MM] whose two fields [int] accepts
    gives sixty times the first plus the second. *)
Theorem to_minutes_parses (time_str : pystr) :
  (58%N ∉ time_str -> to_minutes py_int time_str = 0%Z)
  /\ (forall ws1 ws2,
        Forall (fun c => is_space c = true) ws1 ->
        Forall (fun c => is_space c = true) ws2 ->
        to_minutes py_int (ws1 ++ time_str ++ ws2) = to_minutes py_int time_str)
  /\ (forall hh mm h m,
        time_str = hh ++ 58%N :: mm -> 58%N ∉ hh -> 58%N ∉ mm ->
        stops is_space hh -> ends_ok is_space mm ->
        py_int hh = Some h -> py_int mm = Some m ->
        to_minutes py_int time_str = (h * 60 + m)%Z).
Proof.
  split; [|split].
  - intros Hno. unfold to_minutes.
    rewrite py_split_no_sep; [by destruct (py_int _)|].
    intros Hc. by apply py_strip_elem in Hc.
  - intros ws1 ws2 H1 H2. unfold to_minutes. by rewrite py_strip_spaces.
  - intros hh mm h m -> Hh Hm Hs He Hih Him. unfold to_minutes.
    rewrite py_strip_fixed.
    + rewrite py_split_app, py_split_no_sep by done. by rewrite Hih, Him.
    + destruct hh; [reflexivity|exact Hs].
    + unfold ends_ok in *. destruct mm as [|x mm _] using rev_ind.
      * by rewrite last_snoc.
      * rewrite (app_comm_cons mm [x] 58%N), app_assoc, last_snoc.
        by rewrite last_snoc in He.
Qed.

(** X12. Both ends of a time range belong to it.  When the two ends
    differ, the range and the reversed range together cover every time and
    have exactly the two ends in common, so a range whose end is before its
    start is the one that wraps around midnight.  A range whose ends are
    equal holds that one minute. *)
Theorem time_range_wraps_midnight (start_str end_str : pystr) (now : option datetime)
    (clock : datetime) :
  let current := (dt_hour (default clock now) * 60 + dt_minute (default clock now))%Z in
  let s := to_minutes py_int start_str in
  let e := to_minutes py_int end_str in
  (* both ends belong to the range *)
  (current = s \/ current = e -> is_in_time_range py_int start_str end_str now clock = true)
  (* a range and its reverse cover the day and share only their ends *)
  /\ (s <> e ->
      is_in_time_range py_int start_str end_str now clock
      || is_in_time_range py_int end_str start_str now clock = true)
  /\ (s <> e ->
      (is_in_time_range py_int start_str end_str now clock
       && is_in_time_range py_int end_str start_str now clock = true
       <-> current = s \/ current = e))
  (* a range with equal ends is that one minute *)
  /\ (s = e ->
      (is_in_time_range py_int start_str end_str now clock = true <-> current = s)).
Proof.
  cbv zeta. unfold is_in_time_range.
  set (c := (dt_hour (default clock now) * 60 + dt_minute (default clock now))%Z).
  set (s := to_minutes py_int start_str). set (e := to_minutes py_int end_str).
  repeat split; intros;
    repeat match goal with
           | |- context [(?a <? ?b)%Z] => destruct (Z.ltb_spec a b)
           | |- context [(?a <=? ?b)%Z] => destruct (Z.leb_spec a b)
           | H : context [(?a <? ?b)%Z] |- _ => destruct (Z.ltb_spec a b)
           | H : context [(?a <=? ?b)%Z] |- _ => destruct (Z.leb_spec a b)
           end; cbn in *; try done; try lia.
Qed.

End TimeProperties.

(** ** Derived configurations, composed *)

Section Derived.
Context `{Builtins}.

Lemma merge_negative_prompt_shape (σ : store) (l : loc) (d : dict) (c : N) (e : pystr) :
  σ !! l = Some d ->
  merge_negative_prompt σ l (c :: e)
  = (fresh (dom σ),
     <[fresh (dom σ) := <[py "negative_prompt_add" := VStr (merged_negative d (c :: e))]> d]> σ).
Proof.
  intros Hl. unfold merge_negative_prompt, merged_negative.
  pose proof (copy_deref σ l d Hl) as Hd.
  pose proof (copy_then_setitem σ l d "negative_prompt_add") as Hc.
  destruct (dict_copy σ l) as [config σ1] eqn:Hcopy.
  cbn [fst snd] in Hd, Hc. rewrite Hd.
  assert (config = fresh (dom σ)) as -> by (unfold dict_copy in Hcopy; by inversion Hcopy).
  destruct (truthy (get d "negative_prompt_add" (VStr []))); by rewrite Hc.
Qed.

Lemma inject_llm_original_size_shape (σ : store) (l : loc) (d : dict) (size : pystr) :
  σ !! l = Some d ->
  inject_llm_original_size σ l size
  = if wants_original_size d size
    then (fresh (dom σ),
          <[fresh (dom σ) := <[py "_llm_original_size" := VStr size]> d]> σ)
    else (l, σ).
Proof.
  intros Hl. unfold inject_llm_original_size, wants_original_size.
  assert (deref σ l = d) as -> by (unfold deref; by rewrite Hl).
  destruct (_ && _); [|done].
  pose proof (copy_then_setitem σ l d "_llm_original_size" (VStr size) Hl) as Hc.
  destruct (dict_copy σ l) as [config σ1] eqn:Hcopy.
  cbn [fst snd] in Hc. rewrite Hc.
  unfold dict_copy in Hcopy. by inversion Hcopy.
Qed.

Lemma fresh_loc_ne (σ : store) (l : loc) (d : dict) : σ !! l = Some d -> fresh (dom σ) <> l.
Proof. intros Hl Heq. pose proof (fresh_loc_not_in σ) as Hf. rewrite Heq, Hl in Hf. done. Qed.

Lemma deref_insert (σ : store) (l : loc) (d : dict) : deref (<[l := d]> σ) l = d.
Proof. unfold deref. by rewrite lookup_insert_eq. Qed.

(** X13. Merging two non-empty negative prompts one after the other gives
    a dictionary with the same content as merging them once, joined by a
    comma and a space; the input dictionary is unchanged either way. *)
Theorem merge_negative_prompt_twice (σ : store) (model_config : loc) (d : dict)
    (a b : pystr) :
  σ !! model_config = Some d -> a <> [] -> b <> [] ->
  let once := merge_negative_prompt σ model_config (a ++ py ", " ++ b) in
  let first := merge_negative_prompt σ model_config a in
  let second := merge_negative_prompt first.2 first.1 b in
  deref second.2 second.1 = deref once.2 once.1
  /\ second.2 !! model_config = Some d
  /\ once.2 !! model_config = Some d.
Proof.
  intros Hl Ha Hb. cbv zeta.
  destruct a as [|ca a]; [done|]. destruct b as [|cb b]; [done|].
  change ((ca :: a) ++ py ", " ++ cb :: b) with (ca :: (a ++ py ", " ++ cb :: b)).
  rewrite !(merge_negative_prompt_shape σ model_config d) by done. cbn [fst snd].
  pose proof (fresh_loc_ne σ model_config d Hl) as Hne.
  set (l1 := fresh (dom σ)) in *.
  set (d1 := <[py "negative_prompt_add" := VStr (merged_negative d (ca :: a))]> d).
  rewrite (merge_negative_prompt_shape (<[l1 := d1]> σ) l1 d1) by apply lookup_insert_eq.
  cbn [fst snd].
  assert (Hne2 : fresh (dom (<[l1 := d1]> σ)) <> model_config).
  { eapply fresh_loc_ne. rewrite lookup_insert_ne; [exact Hl|done]. }
  split; [|split].
  - rewrite !deref_insert.
    subst d1. rewrite insert_insert_eq. f_equal. f_equal.
    unfold merged_negative at 1. rewrite get_insert_eq.
    unfold merged_negative.
    destruct (truthy (get d "negative_prompt_add" (VStr []))) eqn:Ht.
    + assert (truthy (VStr (fmt (get d "negative_prompt_add" (VStr [])) ++ py ", " ++ ca :: a))
              = true) as ->.
      { cbn [truthy]. destruct (fmt _); reflexivity. }
      cbn [fmt]. by rewrite <- !app_assoc.
    + cbn [truthy fmt]. reflexivity.
  - rewrite !lookup_insert_ne; done.
  - rewrite lookup_insert_ne; done.
Qed.

(** X14. [merge_negative_prompt] and [inject_llm_original_size] can be
    applied in either order: the resulting dictionaries have the same
    content, [base_url] and [model] are those of the input, and the input
    dictionary is unchanged. *)
Theorem derived_config_order_irrelevant (σ : store) (model_config : loc) (d : dict)
    (extra_negative llm_original_size : pystr) :
  σ !! model_config = Some d ->
  let m := merge_negative_prompt σ model_config extra_negative in
  let mi := inject_llm_original_size m.2 m.1 llm_original_size in
  let i := inject_llm_original_size σ model_config llm_original_size in
  let im := merge_negative_prompt i.2 i.1 extra_negative in
  deref mi.2 mi.1 = deref im.2 im.1
  /\ (forall dflt, get (deref mi.2 mi.1) "base_url" dflt = get d "base_url" dflt)
  /\ (forall dflt, get (deref mi.2 mi.1) "model" dflt = get d "model" dflt)
  /\ mi.2 !! model_config = Some d
  /\ im.2 !! model_config = Some d.
Proof.
  intros Hl. cbv zeta.
  assert (Hk1 : py "negative_prompt_add" <> py "_llm_original_size")
    by (vm_compute; discriminate).
  assert (Hk2 : py "negative_prompt_add" <> py "format") by (vm_compute; discriminate).
  assert (Hk3 : py "_llm_original_size" <> py "negative_prompt_add")
    by (vm_compute; discriminate).
  assert (Hk4 : py "negative_prompt_add" <> py "base_url") by (vm_compute; discriminate).
  assert (Hk5 : py "_llm_original_size" <> py "base_url") by (vm_compute; discriminate).
  assert (Hk6 : py "negative_prompt_add" <> py "model") by (vm_compute; discriminate).
  assert (Hk7 : py "_llm_original_size" <> py "model") by (vm_compute; discriminate).
  pose proof (fresh_loc_ne σ model_config d Hl) as Hne.
  rewrite (inject_llm_original_size_shape σ model_config d) by done.
  destruct extra_negative as [|c e].
  - (* nothing to merge *)
    cbn [merge_negative_prompt fst snd].
    rewrite (inject_llm_original_size_shape σ model_config d) by done.
    destruct (wants_original_size d llm_original_size); cbn [fst snd].
    + rewrite !deref_insert.
      repeat split; intros; rewrite ?get_insert_ne by assumption; try reflexivity.
      all: rewrite lookup_insert_ne by assumption; exact Hl.
    + unfold deref. rewrite Hl. repeat split; try reflexivity; exact Hl.
  - rewrite (merge_negative_prompt_shape σ model_config d) by done. cbn [fst snd].
    set (l1 := fresh (dom σ)) in *.
    set (neg := VStr (merged_negative d (c :: e))).
    rewrite (inject_llm_original_size_shape (<[l1 := <[py "negative_prompt_add" := neg]> d]> σ)
               l1 (<[py "negative_prompt_add" := neg]> d)) by apply lookup_insert_eq.
    assert (wants_original_size (<[py "negative_prompt_add" := neg]> d) llm_original_size
            = wants_original_size d llm_original_size) as ->.
    { unfold wants_original_size. by rewrite get_insert_ne. }
    destruct (wants_original_size d llm_original_size); cbn [fst snd].
    + set (d2 := <[py "_llm_original_size" := VStr llm_original_size]> d).
      rewrite (merge_negative_prompt_shape (<[l1 := d2]> σ) l1 d2) by apply lookup_insert_eq.
      cbn [fst snd].
      assert (merged_negative d2 (c :: e) = merged_negative d (c :: e)) as ->.
      { unfold merged_negative, d2. by rewrite get_insert_ne. }
      fold neg.
      assert (Hne2 : forall dd, fresh (dom (<[l1 := dd]> σ)) <> model_config).
      { intros dd. eapply fresh_loc_ne. rewrite lookup_insert_ne; [exact Hl|done]. }
      rewrite !deref_insert.
      split; [subst d2; by apply insert_insert_ne|].
      repeat split; intros; rewrite ?get_insert_ne by assumption; try reflexivity.
      all: rewrite !lookup_insert_ne by (assumption || apply Hne2); exact Hl.
    + rewrite (merge_negative_prompt_shape σ model_config d) by done. cbn [fst snd].
      fold l1 neg. rewrite !deref_insert.
      repeat split; intros; rewrite ?get_insert_ne by assumption; try reflexivity.
      all: rewrite lookup_insert_ne by assumption; exact Hl.
Qed.

End Derived.

Lemma merge_negative_prompt_twice_witness :
  deref (merge_negative_prompt (H := plain_builtins)
           (merge_negative_prompt (H := plain_builtins) {[1%positive := gemini_config]}
              1%positive (py "blurry")).2
           (merge_negative_prompt (H := plain_builtins) {[1%positive := gemini_config]}
              1%positive (py "blurry")).1 (py "lowres")).2
        (merge_negative_prompt (H := plain_builtins)
           (merge_negative_prompt (H := plain_builtins) {[1%positive := gemini_config]}
              1%positive (py "blurry")).2
           (merge_negative_prompt (H := plain_builtins) {[1%positive := gemini_config]}
              1%positive (py "blurry")).1 (py "lowres")).1
  = deref (merge_negative_prompt (H := plain_builtins) {[1%positive := gemini_config]}
             1%positive (py "blurry" ++ py ", " ++ py "lowres")).2
          (merge_negative_prompt (H := plain_builtins) {[1%positive := gemini_config]}
             1%positive (py "blurry" ++ py ", " ++ py "lowres")).1.
Proof.
  destruct (merge_negative_prompt_twice (H := plain_builtins) {[1%positive := gemini_config]}
              1%positive gemini_config (py "blurry") (py "lowres"))
    as (Hsame & _ & _).
  - apply lookup_singleton_eq.
  - discriminate.
  - discriminate.
  - exact Hsame.
Defined.

Lemma derived_config_order_irrelevant_witness :
  deref (inject_llm_original_size
           (merge_negative_prompt (H := plain_builtins) {[1%positive := gemini_config]}
              1%positive (py "blurry")).2
           (merge_negative_prompt (H := plain_builtins) {[1%positive := gemini_config]}
              1%positive (py "blurry")).1 (py "1024x1024")).2
        (inject_llm_original_size
           (merge_negative_prompt (H := plain_builtins) {[1%positive := gemini_config]}
              1%positive (py "blurry")).2
           (merge_negative_prompt (H := plain_builtins) {[1%positive := gemini_config]}
              1%positive (py "blurry")).1 (py "1024x1024")).1
  = deref (merge_negative_prompt (H := plain_builtins)
             (inject_llm_original_size {[1%positive := gemini_config]} 1%positive
                (py "1024x1024")).2
             (inject_llm_original_size {[1%positive := gemini_config]} 1%positive
                (py "1024x1024")).1 (py "blurry")).2
          (merge_negative_prompt (H := plain_builtins)
             (inject_llm_original_size {[1%positive := gemini_config]} 1%positive
                (py "1024x1024")).2
             (inject_llm_original_size {[1%positive := gemini_config]} 1%positive
                (py "1024x1024")).1 (py "blurry")).1.
Proof.
  destruct (derived_config_order_irrelevant (H := plain_builtins)
              {[1%positive := gemini_config]} 1%positive gemini_config
              (py "blurry") (py "1024x1024") (lookup_singleton_eq _ _))
    as (Hsame & _).
  exact Hsame.
Defined.

(** ** The keywords of a selfie prompt *)

Section KeywordProperties.
Context `{Builtins}.

Lemma unique_keywords_inv (keywords : list pystr) (seen : gset pystr) (unique : list pystr) :
  (forall k, k ∈ seen <-> k ∈ map py_lower unique) ->
  NoDup (map py_lower unique) ->
  exists new,
    unique_keywords keywords seen unique = unique ++ new
    /\ NoDup (map py_lower (unique ++ new))
    /\ sublist new (map py_strip keywords)
    /\ Forall (fun x => py_lower x <> []) new
    /\ (forall kw, kw ∈ keywords -> py_lower (py_strip kw) <> [] ->
        py_lower (py_strip kw) ∈ map py_lower (unique ++ new)).
Proof.
  revert seen unique. induction keywords as [|kw ks IH]; intros seen unique Hseen Hnd.
  - exists []. cbn [unique_keywords map]. rewrite app_nil_r.
    repeat split; try done. intros kw Hin. by apply not_elem_of_nil in Hin.
  - cbn [unique_keywords].
    destruct (truthy (VStr (py_lower (py_strip kw)))) eqn:Ht;
      [destruct (bool_decide_reflect (py_lower (py_strip kw) ∈ seen)) as [Hin|Hnin]|];
      cbn [andb negb].
    + destruct (IH seen unique Hseen Hnd) as (new & Heq & Hnd' & Hsub & Hne & Hall).
      exists new. repeat split; try done.
      * cbn [map]. by apply sublist_cons.
      * intros k [->|Hk]%elem_of_cons Hk'; [|by apply Hall].
        rewrite map_app. apply elem_of_app. left. by apply Hseen.
    + destruct (IH ({[py_lower (py_strip kw)]} ∪ seen) (unique ++ [py_strip kw]))
        as (new & Heq & Hnd' & Hsub & Hne & Hall).
      { intros k. rewrite map_app. cbn [map]. rewrite elem_of_app, elem_of_union.
        rewrite elem_of_singleton, list_elem_of_singleton, Hseen. tauto. }
      { rewrite map_app. cbn [map]. apply NoDup_app. repeat split; [done| |apply NoDup_singleton].
        intros k Hk ->%list_elem_of_singleton. apply Hnin, Hseen, Hk. }
      exists (py_strip kw :: new). rewrite <- app_assoc in Heq, Hnd', Hall.
      repeat split; try done.
      * cbn [map]. by apply sublist_skip.
      * constructor; [|done]. intros Hnil. rewrite Hnil in Ht. done.
      * intros k [->|Hk]%elem_of_cons Hk'; [|by apply Hall].
        rewrite map_app. apply elem_of_app. right. cbn [map]. by left.
    + destruct (IH seen unique Hseen Hnd) as (new & Heq & Hnd' & Hsub & Hne & Hall).
      exists new. repeat split; try done.
      * cbn [map]. by apply sublist_cons.
      * intros k [->|Hk]%elem_of_cons Hk'; [|by apply Hall].
        exfalso. cbn [truthy] in Ht. destruct (py_lower (py_strip kw)); done.
Qed.

Lemma unique_keywords_fixed (u : list pystr) (seen : gset pystr) (unique : list pystr) :
  Forall (fun x => py_strip x = x /\ py_lower x <> []) u ->
  NoDup (map py_lower u) ->
  (forall k, k ∈ seen -> k ∉ map py_lower u) ->
  unique_keywords u seen unique = unique ++ u.
Proof.
  revert seen unique. induction u as [|x u IH]; intros seen unique Hu Hnd Hseen.
  - cbn [unique_keywords]. by rewrite app_nil_r.
  - inversion Hu as [|? ? [Hx1 Hx2] Hu']; subst. cbn [unique_keywords].
    rewrite Hx1. cbn [map] in Hnd. apply NoDup_cons in Hnd as [Hx3 Hnd].
    assert (truthy (VStr (py_lower x)) = true) as ->.
    { cbn [truthy]. by destruct (py_lower x). }
    rewrite bool_decide_eq_false_2.
    2:{ intros Hin. apply (Hseen _ Hin). cbn [map]. by left. }
    cbn [andb negb]. rewrite IH; [by rewrite <- app_assoc|done|done|].
    intros k [->%elem_of_singleton|Hk]%elem_of_union; [done|].
    intros Hk'. apply (Hseen _ Hk). cbn [map]. by right.
Qed.

Lemma selfie_keywords_facts (prompt_parts : list pystr) :
  NoDup (map py_lower (selfie_keywords prompt_parts))
  /\ Forall (fun x => py_lower x <> [] /\ (44%N ∉ x) /\ py_strip x = x)
            (selfie_keywords prompt_parts).
Proof.
  unfold selfie_keywords.
  set (parts := List.filter _ prompt_parts).
  set (keywords := map py_strip (py_split 44 (py_join (py ", ") parts))).
  destruct (unique_keywords_inv keywords ∅ []) as (new & Heq & Hnd & Hsub & Hne & _).
  { intros k. cbn [map]. set_solver. }
  { cbn [map]. apply NoDup_nil_2. }
  cbn [app] in Heq, Hnd. rewrite Heq. split; [done|].
  apply Forall_forall. intros x Hx. split; [by rewrite Forall_forall in Hne; apply Hne|].
  assert (Hin : x ∈ map py_strip keywords) by (eapply elem_of_sublist; eauto).
  apply list_elem_of_fmap in Hin as (k & -> & Hk).
  apply list_elem_of_fmap in Hk as (piece & -> & Hpiece).
  rewrite !py_strip_idem. split; [|done].
  intros Hc. apply py_strip_elem in Hc. by apply py_split_elem in Hpiece.
Qed.

(** X15. The keywords the loop keeps are distinct when lower-cased, appear
    in the order of the input, none lower-cases to the empty string, and
    every keyword of the input that does not lower-case to the empty string
    is represented among them. *)
Theorem unique_keywords_first_occurrences (keywords : list pystr) :
  let unique := unique_keywords keywords ∅ [] in
  NoDup (map py_lower unique)
  /\ sublist unique (map py_strip keywords)
  /\ Forall (fun x => py_lower x <> []) unique
  /\ (forall kw, kw ∈ keywords -> py_lower (py_strip kw) <> [] ->
      py_lower (py_strip kw) ∈ map py_lower unique).
Proof.
  cbv zeta.
  destruct (unique_keywords_inv keywords ∅ []) as (new & Heq & Hnd & Hsub & Hne & Hall).
  { intros k. cbn [map]. set_solver. }
  { cbn [map]. apply NoDup_nil_2. }
  cbn [app] in *. rewrite Heq. done.
Qed.

Lemma final_prompt_joined (u : list pystr) :
  NoDup (map py_lower u) ->
  Forall (fun x => py_lower x <> [] /\ (44%N ∉ x) /\ py_strip x = x) u ->
  final_prompt [py_join (py ", ") u] = py_join (py ", ") u.
Proof.
  intros Hnd Hall.
  destruct (py_join (py ", ") u) as [|c0 s0] eqn:Hfinal.
  { (* an empty prompt is filtered out *)
    unfold final_prompt, selfie_keywords. cbn [List.filter truthy andb py_join].
    cbn [py_split map unique_keywords].
    match goal with |- context [if ?b then _ else _] => destruct b end; reflexivity. }
  rewrite <- Hfinal.
  assert (Hstrip : py_strip (py_join (py ", ") u) <> []).
  { intros Hs%py_strip_nil_inv. rewrite forallb_forall in Hs.
    destruct u as [|x [|y u]]; [by rewrite Hfinal in *| |].
    - cbn [py_join] in *. apply Forall_cons in Hall as [(_ & _ & Hx) _].
      destruct (py_strip_shape x) as [Hnil|(c & r & Hc & _ & Hxr)].
      + rewrite Hx in Hnil. congruence.
      + rewrite Hx in Hxr. rewrite (Hs c) in Hc; [done|]. rewrite Hxr. by left.
    - change (py_join (py ", ") (x :: y :: u))
        with (x ++ 44%N :: 32%N :: py_join (py ", ") (y :: u)) in Hs.
      specialize (Hs 44%N). rewrite in_app_iff in Hs.
      assert (is_space 44 = true) by (apply Hs; right; by left). done. }
  unfold final_prompt, selfie_keywords. cbn [List.filter].
  assert (truthy (VStr (py_join (py ", ") u))
          && truthy (VStr (py_strip (py_join (py ", ") u))) = true) as ->.
  { rewrite Hfinal. cbn [truthy andb]. rewrite <- Hfinal.
    by destruct (py_strip (py_join (py ", ") u)). }
  cbn [py_join].
  destruct u as [|x u]; [by rewrite Hfinal in *|].
  rewrite py_split_join.
  2:{ eapply Forall_impl; [exact Hall|]. by intros k (_ & ? & _). }
  pose proof Hall as [(Hx1 & Hx2 & Hx3) Hall']%Forall_cons.
  cbn [map]. rewrite Hx3.
  assert (map py_strip (map (cons 32%N) u) = u) as ->.
  { clear -Hall'. induction Hall' as [|y u (_ & _ & Hy) _ IH]; [done|].
    cbn [map]. by rewrite py_strip_space_cons, Hy, IH. }
  rewrite (unique_keywords_fixed (x :: u) ∅ []); [done| |done|set_solver].
  eapply Forall_impl; [exact Hall|]. by intros k (? & _ & ?).
Qed.

(** X16. Every keyword of the final prompt is free of commas and of
    surrounding white space, and a final prompt put through the stage again
    comes out unchanged. *)
Theorem final_prompt_idempotent (prompt_parts : list pystr) :
  Forall (fun x => (44%N ∉ x) /\ py_strip x = x /\ py_lower x <> [])
         (selfie_keywords prompt_parts)
  /\ final_prompt [final_prompt prompt_parts] = final_prompt prompt_parts.
Proof.
  destruct (selfie_keywords_facts prompt_parts) as [Hnd Hall].
  split.
  - eapply Forall_impl; [exact Hall|]. by intros x (? & ? & ?).
  - unfold final_prompt at 2 3. by apply final_prompt_joined.
Qed.

Lemma unique_keywords_extends (keywords : list pystr) (seen : gset pystr)
    (unique : list pystr) :
  exists new, unique_keywords keywords seen unique = unique ++ new.
Proof.
  revert seen unique. induction keywords as [|kw ks IH]; intros seen unique.
  - exists []. cbn [unique_keywords]. by rewrite app_nil_r.
  - cbn [unique_keywords]. destruct (_ && _).
    + destruct (IH ({[py_lower (py_strip kw)]} ∪ seen) (unique ++ [py_strip kw]))
        as [new ->].
      exists (py_strip kw :: new). by rewrite <- app_assoc.
    + apply IH.
Qed.

Lemma subject_split (tail : pystr) :
  tail = [] \/ (exists t, tail = 44%N :: t) ->
  exists more,
    map py_strip (py_split 44 (SUBJECT_PART ++ tail))
    = py "(1girl:1.4)" :: py "(solo:1.3)" :: more.
Proof.
  intros Htail.
  change SUBJECT_PART with (py "(1girl:1.4)" ++ 44%N :: py " (solo:1.3)").
  rewrite <- app_assoc. cbn [app].
  rewrite py_split_app by (apply not_elem_of_forallb; vm_compute; reflexivity).
  assert (Hb : py_strip (py " (solo:1.3)") = py "(solo:1.3)") by (vm_compute; reflexivity).
  assert (Ha : py_strip (py "(1girl:1.4)") = py "(1girl:1.4)") by (vm_compute; reflexivity).
  destruct Htail as [->|[t ->]].
  - rewrite app_nil_r, py_split_no_sep by (apply not_elem_of_forallb; vm_compute; reflexivity).
    exists []. cbn [map]. by rewrite Ha, Hb.
  - rewrite py_split_app by (apply not_elem_of_forallb; vm_compute; reflexivity).
    eexists. cbn [map]. by rewrite Ha, Hb.
Qed.

(** X17. Whatever parts follow it, the part appended first puts its two
    keywords at the head of the final prompt: the prompt starts with
    [(1girl:1.4), (solo:1.3)], given that lower-casing leaves these two
    keywords as they are. *)
Theorem final_prompt_starts_with_subject (rest : list pystr) :
  py_lower (py "(1girl:1.4)") = py "(1girl:1.4)" ->
  py_lower (py "(solo:1.3)") = py "(solo:1.3)" ->
  exists kept,
    selfie_keywords (SUBJECT_PART :: rest)
    = py "(1girl:1.4)" :: py "(solo:1.3)" :: kept
    /\ final_prompt (SUBJECT_PART :: rest)
       = SUBJECT_PART ++ match kept with [] => [] | _ => py ", " ++ py_join (py ", ") kept end.
Proof.
  intros Ha Hb.
  assert (Hsa : py_strip (py "(1girl:1.4)") = py "(1girl:1.4)") by (vm_compute; reflexivity).
  assert (Hsb : py_strip (py "(solo:1.3)") = py "(solo:1.3)") by (vm_compute; reflexivity).
  assert (Hkw : exists kept, selfie_keywords (SUBJECT_PART :: rest)
                             = py "(1girl:1.4)" :: py "(solo:1.3)" :: kept).
  { unfold selfie_keywords. cbn [List.filter].
    assert (truthy (VStr SUBJECT_PART) && truthy (VStr (py_strip SUBJECT_PART)) = true)
      as -> by (vm_compute; reflexivity).
    rewrite py_join_cons.
    destruct (subject_split
                (match List.filter (fun p => truthy (VStr p) && truthy (VStr (py_strip p))) rest with
                 | [] => []
                 | _ :: _ => py ", " ++ py_join (py ", ")
                     (List.filter (fun p => truthy (VStr p) && truthy (VStr (py_strip p))) rest)
                 end)) as [more ->].
    { destruct (List.filter _ rest); [by left|right]. by eexists. }
    cbn [unique_keywords]. rewrite Hsa, Ha, Hsb, Hb.
    assert (truthy (VStr (py "(1girl:1.4)")) = true) as -> by reflexivity.
    assert (truthy (VStr (py "(solo:1.3)")) = true) as -> by reflexivity.
    rewrite bool_decide_eq_false_2 by set_solver. cbn [andb negb].
    rewrite bool_decide_eq_false_2.
    2:{ rewrite elem_of_union, elem_of_singleton. intros [Heq|Hin]; [|set_solver].
        vm_compute in Heq. discriminate. }
    cbn [andb negb app].
    destruct (unique_keywords_extends more
                ({[py "(solo:1.3)"]} ∪ ({[py "(1girl:1.4)"]} ∪ ∅))
                [py "(1girl:1.4)"; py "(solo:1.3)"]) as [new ->].
    by exists new. }
  destruct Hkw as [kept Hkw]. exists kept. split; [exact Hkw|].
  unfold final_prompt. rewrite Hkw, !py_join_cons.
  change SUBJECT_PART with (py "(1girl:1.4)" ++ py ", " ++ py "(solo:1.3)").
  by rewrite <- !app_assoc.
Qed.

End KeywordProperties.

Lemma final_prompt_starts_with_subject_witness :
  exists kept,
    selfie_keywords (H := plain_builtins) [SUBJECT_PART; py "smile, Solo , (SOLO:1.3)"]
    = py "(1girl:1.4)" :: py "(solo:1.3)" :: kept
    /\ final_prompt (H := plain_builtins) [SUBJECT_PART; py "smile, Solo , (SOLO:1.3)"]
       = SUBJECT_PART ++ match kept with [] => [] | _ => py ", " ++ py_join (py ", ") kept end.
Proof.
  apply (final_prompt_starts_with_subject (H := plain_builtins)
           [py "smile, Solo , (SOLO:1.3)"]); reflexivity.
Defined.

